(** * Extensible dialects: dynamic types and operations registered at runtime

    A shallow embedding of [mlir/lib/IR/ExtensibleDialect.cpp].

    Objects that the C++ code handles through pointers (dialects, dynamic
    type definitions, type storages) live in a store carried by the
    [MLIRContext]; a pointer is the index of the object in its store, so
    pointer comparison is comparison of indices.  Every function that reads
    or changes the context takes it as an argument and returns the new one.
    A failed [assert] is a result of its own, [AssertionFailure]. *)

From Stdlib Require Import Ascii String.
From stdpp Require Import base option list gmap strings.

Local Open Scope string_scope.
Local Open Scope list_scope.

(** ** Results *)

(** [LogicalResult] / [ParseResult]. *)
Inductive LogicalResult : Set := success | failure.

Definition failed (r : LogicalResult) : bool :=
  match r with failure => true | success => false end.

Definition succeeded (r : LogicalResult) : bool := negb (failed r).

Abbreviation ParseResult := LogicalResult.

(** What a call of the embedded code does: it returns, or it stops at a
    failed assertion, or it leaves the defined behaviour of the program
    (a null or dangling pointer is dereferenced, a hook never returns). *)
Inductive Outcome (A : Type) : Type :=
| Ok (a : A)
| AssertionFailure (msg : string)
| Undefined.
Arguments Ok {A} a.
Arguments AssertionFailure {A} msg.
Arguments Undefined {A}.

Definition Outcome_bind {A B} (f : A → Outcome B) (m : Outcome A) : Outcome B :=
  match m with
  | Ok a => f a
  | AssertionFailure msg => AssertionFailure msg
  | Undefined => Undefined
  end.

#[global] Instance Outcome_mbind : MBind Outcome := @Outcome_bind.
#[global] Instance Outcome_mret : MRet Outcome := @Ok.

(** [assert(cond && msg)]. *)
Definition assert (cond : bool) (msg : string) : Outcome unit :=
  if cond then Ok tt else AssertionFailure msg.

(** [*ptr] for a pointer into a store. *)
Definition deref {A} (store : list A) (ptr : nat) : Outcome A :=
  match store !! ptr with
  | Some a => Ok a
  | None => Undefined
  end.

Definition is_assertion_failure {A} (o : Outcome A) : Prop :=
  ∃ msg, o = AssertionFailure msg.

(** ** Tokens and streams *)

(** The tokens the dialect assembly parser hands out.  The output stream of
    a printer is kept at the same granularity: writing a piece of text
    appends the tokens it lexes to. *)
Inductive Token : Set :=
| Tok_less
| Tok_greater
| Tok_comma
| Tok_bare_identifier (spelling : string)
| Tok_integer (value : Z)
| Tok_other (spelling : string).

#[global] Instance Token_eq_dec : EqDecision Token.
Proof. solve_decision. Defined.

(** [raw_ostream] behind a [DialectAsmPrinter] / [OpAsmPrinter]. *)
Definition OStream := list Token.

(** An error reported at a position of the input: the position is the rest
    of the input from there on. *)
Record Diagnostic := mkDiagnostic {
  diag_loc : list Token;
  diag_msg : string
}.

(** [DialectAsmParser] / [OpAsmParser]: the input that is left and the
    errors emitted so far. *)
Record AsmParser := mkAsmParser {
  tokens : list Token;
  diagnostics : list Diagnostic
}.

Definition getCurrentLocation (p : AsmParser) : list Token := tokens p.

(** Modelled from the spec: the token stream primitive "emit error at
    current position" ([parser.emitError(loc, msg)]) of the assembly
    parser. *)
Definition emitError (p : AsmParser) (loc : list Token) (msg : string) : AsmParser :=
  mkAsmParser (tokens p) (diagnostics p ++ [mkDiagnostic loc msg]).

Definition consume (p : AsmParser) (rest : list Token) : AsmParser :=
  mkAsmParser rest (diagnostics p).

(** Modelled from the spec: the token stream primitive "try consume
    begin-delimiter" ([parseOptionalLess]): consumes a ['<'] if it is next,
    and fails silently otherwise. *)
Definition parseOptionalLess (p : AsmParser) : ParseResult * AsmParser :=
  match tokens p with
  | Tok_less :: rest => (success, consume p rest)
  | _ => (failure, p)
  end.

(** Modelled from the spec: the token stream primitive "try consume
    end-delimiter" ([parseOptionalGreater]). *)
Definition parseOptionalGreater (p : AsmParser) : ParseResult * AsmParser :=
  match tokens p with
  | Tok_greater :: rest => (success, consume p rest)
  | _ => (failure, p)
  end.

(** Modelled from the spec: the token stream primitive "consume comma"
    ([parseComma]): a missing comma is an error, reported where it is
    missed. *)
Definition parseComma (p : AsmParser) : ParseResult * AsmParser :=
  match tokens p with
  | Tok_comma :: rest => (success, consume p rest)
  | _ => (failure, emitError p (getCurrentLocation p) "expected ','")
  end.

(** [nameRef.contains('.')]. *)
Fixpoint contains (s : string) (c : Ascii.ascii) : bool :=
  match s with
  | EmptyString => false
  | String c' s' => if decide (c' = c) then true else contains s' c
  end.

(** ** Identifiers and pointers *)

Abbreviation TypeID := nat (only parsing).
Abbreviation DialectPtr := nat (only parsing).
Abbreviation DefPtr := nat (only parsing).
Abbreviation StoragePtr := nat (only parsing).

(** [DynamicType]: a handle on a uniqued storage; [None] is the null handle
    [DynamicType()] / [{}]. *)
Definition DynamicType := option StoragePtr.

(** Interfaces a dialect can register. *)
Inductive DialectInterfaceID : Set :=
| IsExtensibleDialect
| OtherDialectInterface (id : nat).

#[global] Instance DialectInterfaceID_eq_dec : EqDecision DialectInterfaceID.
Proof. solve_decision. Defined.

(** Interfaces a type can implement. *)
Inductive TypeInterfaceID : Set :=
| IsDynamicTypeInterface
| OtherTypeInterface (id : nat).

#[global] Instance TypeInterfaceID_eq_dec : EqDecision TypeInterfaceID.
Proof. solve_decision. Defined.

Section ExtensibleDialect.

(** Attributes, operations and operation states belong to the host
    framework.  Attributes are compared with [==]. *)
Context {Attribute : Type} `{!EqDecision Attribute}.
Context {Operation OperationState : Type}.

(** "parse one attribute value" on the input that is left: the attribute
    and the number of tokens it took, or nothing. *)
Variable parseAttributeTokens : list Token → option (Attribute * nat).

(** The text of an attribute, as [operator<<] writes it. *)
Variable printAttribute : Attribute → list Token.

(** [OpAsmPrinter::printGenericOp]. *)
Variable printGenericOp : Operation → OStream → OStream.

(** Modelled from the spec: the token stream primitive "parse one attribute
    value" ([parser.parseAttribute(attr)]): on success the attribute is
    consumed from the input, on failure an error is emitted at the current
    position. *)
Definition parseAttribute (p : AsmParser) : AsmParser * option Attribute :=
  match parseAttributeTokens (tokens p) with
  | Some (attr, n) => (consume p (drop n (tokens p)), Some attr)
  | None => (emitError p (getCurrentLocation p) "expected attribute value", None)
  end.

(** ** Hooks *)

(** [DynamicTypeDefinition::VerifierFn].  The verifier is handed the
    [emitError] callback of its caller; its embedding returns its verdict
    and the messages it hands to that callback, in order. *)
Definition VerifierFn := list Attribute → LogicalResult * list string.

(** [DynamicTypeDefinition::ParserFn]: the parser and the vector of
    parameters are passed by reference; [None] when the hook never
    returns. *)
Definition ParserFn :=
  AsmParser → list Attribute → option (ParseResult * AsmParser * list Attribute).

(** [DynamicTypeDefinition::PrinterFn]. *)
Definition PrinterFn := OStream → list Attribute → OStream.

(** ** Objects *)

Record DynamicTypeDefinition := mkDynamicTypeDefinition {
  name : string;
  dialect : DialectPtr;
  verifier : VerifierFn;
  parser : ParserFn;
  printer : PrinterFn;
  typeID : TypeID
}.

(** [detail::DynamicTypeStorage]. *)
Record DynamicTypeStorage := mkDynamicTypeStorage {
  typeDef : DefPtr;
  params : list Attribute
}.

Definition KeyTy : Type := DefPtr * list Attribute.

Record AbstractType := mkAbstractType {
  at_dialect : DialectPtr;
  at_interfaceMap : list TypeInterfaceID;
  at_typeID : TypeID
}.

Record DynamicOpDefinition := mkDynamicOpDefinition {
  op_typeID : TypeID;
  op_name : string;
  op_dialect : DialectPtr;
  verifyFn : Operation → LogicalResult;
  parseFn : AsmParser → OperationState → ParseResult * AsmParser * OperationState;
  printFn : Operation → OStream → OStream
}.

(** An entry of the table of registered operations, with the arguments of
    [AbstractOperation::insert]. *)
Record AbstractOperation := mkAbstractOperation {
  ao_name : string;
  ao_dialect : DialectPtr;
  ao_typeID : TypeID;
  ao_parseAssembly : AsmParser → OperationState → ParseResult * AsmParser * OperationState;
  ao_printAssembly : Operation → OStream → OStream;
  ao_verifyInvariants : Operation → LogicalResult;
  ao_foldHook : Operation → list Attribute → LogicalResult;
  ao_canonicalizationPatterns : list string → list string;
  ao_interfaceMap : list nat;
  ao_hasTrait : TypeID → bool
}.

(** A dialect: the members of [Dialect] the code reads, and the two tables
    of [ExtensibleDialect]. *)
Record Dialect := mkDialect {
  getNamespace : string;
  dialectTypeID : TypeID;
  registeredInterfaces : list DialectInterfaceID;
  dynTypes : gmap TypeID DefPtr;
  nameToDynTypes : gmap string DefPtr
}.

Record MLIRContext := mkMLIRContext {
  nextTypeID : nat;
  dialects : list Dialect;
  typeDefs : list DynamicTypeDefinition;
  registeredTypes : gmap TypeID AbstractType;
  registeredOperations : gmap string AbstractOperation;
  typeUniquer : gmap TypeID (list StoragePtr);
  arena : list DynamicTypeStorage
}.

Definition emptyContext : MLIRContext :=
  mkMLIRContext 0 [] [] ∅ ∅ ∅ [].

(** Modelled from the spec: the identifier allocator of the context
    ([MLIRContext::allocateTypeID]): "returns a fresh identifier, strictly
    distinct from every previously issued one"; a counter. *)
Definition allocateTypeID (ctx : MLIRContext) : TypeID * MLIRContext :=
  (nextTypeID ctx,
   mkMLIRContext (S (nextTypeID ctx)) (dialects ctx) (typeDefs ctx)
     (registeredTypes ctx) (registeredOperations ctx) (typeUniquer ctx) (arena ctx)).

(** Updates of one member of the context. *)
Definition set_dialects (ctx : MLIRContext) (ds : list Dialect) : MLIRContext :=
  mkMLIRContext (nextTypeID ctx) ds (typeDefs ctx)
    (registeredTypes ctx) (registeredOperations ctx) (typeUniquer ctx) (arena ctx).

Definition set_typeDefs (ctx : MLIRContext) (tds : list DynamicTypeDefinition) : MLIRContext :=
  mkMLIRContext (nextTypeID ctx) (dialects ctx) tds
    (registeredTypes ctx) (registeredOperations ctx) (typeUniquer ctx) (arena ctx).

Definition set_registeredTypes (ctx : MLIRContext) (m : gmap TypeID AbstractType) : MLIRContext :=
  mkMLIRContext (nextTypeID ctx) (dialects ctx) (typeDefs ctx)
    m (registeredOperations ctx) (typeUniquer ctx) (arena ctx).

Definition set_registeredOperations (ctx : MLIRContext) (m : gmap string AbstractOperation) : MLIRContext :=
  mkMLIRContext (nextTypeID ctx) (dialects ctx) (typeDefs ctx)
    (registeredTypes ctx) m (typeUniquer ctx) (arena ctx).

Definition set_uniquer (ctx : MLIRContext) (u : gmap TypeID (list StoragePtr))
    (a : list DynamicTypeStorage) : MLIRContext :=
  mkMLIRContext (nextTypeID ctx) (dialects ctx) (typeDefs ctx)
    (registeredTypes ctx) (registeredOperations ctx) u a.

(** ** Dynamic type *)

(** The default parser of [DynamicTypeDefinition::get]: the [while] loop,
    entered after the first parameter.  [fuel] bounds the number of
    iterations; [defaultParser_returns] shows that the bound given by
    [defaultParser] is never reached. *)
Fixpoint parseMoreParams (fuel : nat) (p : AsmParser) (parsedParams : list Attribute)
    : option (ParseResult * AsmParser * list Attribute) :=
  match fuel with
  | O => None
  | S fuel' =>
    let '(r, p) := parseOptionalGreater p in
    if failed r then
      let '(rc, p) := parseComma p in
      if failed rc then Some (failure, p, parsedParams)
      else
        match parseAttribute p with
        | (p, None) => Some (failure, p, parsedParams)
        | (p, Some attr) => parseMoreParams fuel' p (parsedParams ++ [attr])
        end
    else Some (success, p, parsedParams)
  end.

(** The default parser of [DynamicTypeDefinition::get]. *)
Definition defaultParser : ParserFn := λ p parsedParams,
  (* No parameters *)
  let '(r1, p) := parseOptionalLess p in
  if failed r1 then Some (success, p, parsedParams)
  else
    let '(r2, p) := parseOptionalGreater p in
    if negb (failed r2) then Some (success, p, parsedParams)
    else
      match parseAttribute p with
      | (p, None) => Some (failure, p, parsedParams)
      | (p, Some attr) =>
          parseMoreParams (S (length (tokens p))) p (parsedParams ++ [attr])
      end.

(** [llvm::interleaveComma(params, os)]. *)
Fixpoint interleaveComma (params : list Attribute) (os : OStream) : OStream :=
  match params with
  | [] => os
  | [a] => os ++ printAttribute a
  | a :: rest => interleaveComma rest (os ++ printAttribute a ++ [Tok_comma])
  end.

(** The default printer of [DynamicTypeDefinition::get]. *)
Definition defaultPrinter : PrinterFn := λ os params,
  if decide (params = []) then os
  else interleaveComma params (os ++ [Tok_less]) ++ [Tok_greater].

(** [new DynamicTypeDefinition(...)]: the object is placed in the store. *)
Definition new_typeDef (ctx : MLIRContext) (d : DynamicTypeDefinition) : DefPtr * MLIRContext :=
  (length (typeDefs ctx), set_typeDefs ctx (typeDefs ctx ++ [d])).

(** The constructors of [DynamicTypeDefinition]: the members are
    initialized (which allocates the identifier), then the name is
    checked. *)
Definition DynamicTypeDefinition_ctor (ctx : MLIRContext) (dialect : DialectPtr)
    (nameRef : string) (verifier : VerifierFn) (parser : ParserFn) (printer : PrinterFn)
    : Outcome (DynamicTypeDefinition * MLIRContext) :=
  _ ← deref (dialects ctx) dialect;
  let '(tid, ctx) := allocateTypeID ctx in
  _ ← assert (negb (contains nameRef "."%char)) "name should not be prefixed by the dialect name";
  Ok (mkDynamicTypeDefinition nameRef dialect verifier parser printer tid, ctx).

(** [DynamicTypeDefinition::get(dialect, name, verifier)]: the hooks left
    empty by the two-argument constructor are set right after it. *)
Definition DynamicTypeDefinition_get (ctx : MLIRContext) (dialect : DialectPtr)
    (name : string) (verifier : VerifierFn) : Outcome (DefPtr * MLIRContext) :=
  '(typeDef, ctx) ← DynamicTypeDefinition_ctor ctx dialect name verifier
                      defaultParser defaultPrinter;
  Ok (new_typeDef ctx typeDef).

(** [DynamicTypeDefinition::get(dialect, name, verifier, parser, printer)]. *)
Definition DynamicTypeDefinition_get_custom (ctx : MLIRContext) (dialect : DialectPtr)
    (name : string) (verifier : VerifierFn) (parser : ParserFn) (printer : PrinterFn)
    : Outcome (DefPtr * MLIRContext) :=
  '(typeDef, ctx) ← DynamicTypeDefinition_ctor ctx dialect name verifier parser printer;
  Ok (new_typeDef ctx typeDef).

(** [DynamicTypeStorage::operator==]. *)
Definition DynamicTypeStorage_eq (s : DynamicTypeStorage) (key : KeyTy) : bool :=
  bool_decide (typeDef s = key.1) && bool_decide (params s = key.2).

(** [DynamicTypeStorage::construct]: the parameters are copied into the
    allocator. *)
Definition DynamicTypeStorage_construct (key : KeyTy) : DynamicTypeStorage :=
  mkDynamicTypeStorage key.1 key.2.

(** The table of the uniquer for one identifier; no table yet is an empty
    table. *)
Definition uniquerTable (ctx : MLIRContext) (id : TypeID) : list StoragePtr :=
  default [] (typeUniquer ctx !! id).

(** The storage of the table of [id] that is equal to [key], if any. *)
Definition uniquerLookup (ctx : MLIRContext) (id : TypeID) (key : KeyTy) : option StoragePtr :=
  List.find (λ ptr, match arena ctx !! ptr with
                    | Some s => DynamicTypeStorage_eq s key
                    | None => false
                    end)
            (uniquerTable ctx id).

(** Modelled from the spec: the interner ([detail::TypeUniquer::getWithTypeID]
    over the storage uniquer of the context): "On a cache hit for
    (definition, params), returns the existing Instance.  On a miss,
    allocates a new Instance from the arena, inserts it under the
    CanonicalKey, and returns it."  Keys are compared with
    [DynamicTypeStorage_eq] and a new storage is built by
    [DynamicTypeStorage_construct]; the arena only grows. *)
Definition TypeUniquer_getWithTypeID (ctx : MLIRContext) (id : TypeID) (key : KeyTy)
    : StoragePtr * MLIRContext :=
  match uniquerLookup ctx id key with
  | Some ptr => (ptr, ctx)
  | None =>
      let ptr := length (arena ctx) in
      (ptr, set_uniquer ctx (<[id := uniquerTable ctx id ++ [ptr]]> (typeUniquer ctx))
                         (arena ctx ++ [DynamicTypeStorage_construct key]))
  end.

(** Modelled from the spec: [detail::TypeUniquer::registerType], which
    "wires the definition into the Interner's schema for its identifier":
    the identifier gets its table, empty unless it has one already. *)
Definition TypeUniquer_registerType (ctx : MLIRContext) (id : TypeID) : MLIRContext :=
  set_uniquer ctx (<[id := uniquerTable ctx id]> (typeUniquer ctx)) (arena ctx).

(** [DynamicTypeDefinition::registerInTypeUniquer]. *)
Definition registerInTypeUniquer (ctx : MLIRContext) (this : DefPtr) : Outcome MLIRContext :=
  def ← deref (typeDefs ctx) this;
  Ok (TypeUniquer_registerType ctx (typeID def)).

(** [DynamicType::get]. *)
Definition DynamicType_get (ctx : MLIRContext) (typeDef : DefPtr) (params : list Attribute)
    : Outcome (DynamicType * MLIRContext) :=
  def ← deref (typeDefs ctx) typeDef;
  let '(ptr, ctx) := TypeUniquer_getWithTypeID ctx (typeID def) (typeDef, params) in
  Ok (Some ptr, ctx).

(** [typeDef->verify(emitError, params)]: the messages of the verifier go
    to the callback, which writes them to the sink of the caller. *)
Definition verify {Sink : Type} (def : DynamicTypeDefinition)
    (emit : string → Sink → Sink) (sink : Sink) (params : list Attribute)
    : LogicalResult * Sink :=
  let '(r, msgs) := verifier def params in
  (r, foldl (λ s msg, emit msg s) sink msgs).

(** [DynamicType::getChecked]. *)
Definition DynamicType_getChecked {Sink : Type} (emit : string → Sink → Sink) (sink : Sink)
    (ctx : MLIRContext) (typeDef : DefPtr) (params : list Attribute)
    : Outcome (DynamicType * Sink * MLIRContext) :=
  def ← deref (typeDefs ctx) typeDef;
  let '(r, sink) := verify def emit sink params in
  if failed r then Ok (None, sink, ctx)
  else
    '(t, ctx) ← DynamicType_get ctx typeDef params;
    Ok (t, sink, ctx).

(** [getImpl()]. *)
Definition getImpl (ctx : MLIRContext) (this : DynamicType) : Outcome DynamicTypeStorage :=
  match this with
  | Some ptr => deref (arena ctx) ptr
  | None => Undefined
  end.

(** [DynamicType::getTypeDef]. *)
Definition getTypeDef (ctx : MLIRContext) (this : DynamicType) : Outcome DefPtr :=
  impl ← getImpl ctx this; Ok (typeDef impl).

(** [DynamicType::getParams]. *)
Definition getParams (ctx : MLIRContext) (this : DynamicType) : Outcome (list Attribute) :=
  impl ← getImpl ctx this; Ok (params impl).

(** [DynamicType::parse]. *)
Definition DynamicType_parse (ctx : MLIRContext) (p : AsmParser) (typeDef : DefPtr)
    (parsedType : DynamicType)
    : Outcome (ParseResult * AsmParser * DynamicType * MLIRContext) :=
  def ← deref (typeDefs ctx) typeDef;
  match parser def p [] with
  | None => Undefined
  | Some (r, p, params) =>
      if failed r then Ok (failure, p, parsedType, ctx)
      else
        let emit := λ msg (p : AsmParser), emitError p (getCurrentLocation p) msg in
        '(t, p, ctx) ← DynamicType_getChecked emit p ctx typeDef params;
        Ok (success, p, t, ctx)
  end.

(** [DynamicType::print]. *)
Definition DynamicType_print (ctx : MLIRContext) (this : DynamicType) (os : OStream)
    : Outcome OStream :=
  typeDef ← getTypeDef ctx this;
  def ← deref (typeDefs ctx) typeDef;
  let os := os ++ [Tok_bare_identifier (name def)] in
  params ← getParams ctx this;
  Ok (printer def os params).

(** ** Dynamic operation *)

(** The constructor of [DynamicOpDefinition]. *)
Definition DynamicOpDefinition_ctor (ctx : MLIRContext) (name : string) (dialect : DialectPtr)
    (verifyFn : Operation → LogicalResult)
    (parseFn : AsmParser → OperationState → ParseResult * AsmParser * OperationState)
    (printFn : Operation → OStream → OStream)
    : Outcome (DynamicOpDefinition * MLIRContext) :=
  d ← deref (dialects ctx) dialect;
  let '(tid, ctx) := allocateTypeID ctx in
  Ok (mkDynamicOpDefinition tid (getNamespace d +:+ "." +:+ name) dialect
        verifyFn parseFn printFn, ctx).

(** The parser that [DynamicOpDefinition::get(name, dialect, verifyFn)]
    installs. *)
Definition noParserFn (p : AsmParser) (result : OperationState)
    : ParseResult * AsmParser * OperationState :=
  (failure,
   emitError p (getCurrentLocation p) "dynamic operation do not define any parser function",
   result).

(** The printer that [DynamicOpDefinition::get(name, dialect, verifyFn)]
    installs. *)
Definition genericPrintFn (op : Operation) (os : OStream) : OStream :=
  printGenericOp op os.

(** [DynamicOpDefinition::get(name, dialect, verifyFn)]. *)
Definition DynamicOpDefinition_get (ctx : MLIRContext) (name : string) (dialect : DialectPtr)
    (verifyFn : Operation → LogicalResult)
    : Outcome (DynamicOpDefinition * MLIRContext) :=
  DynamicOpDefinition_ctor ctx name dialect verifyFn noParserFn genericPrintFn.

(** [DynamicOpDefinition::get(name, dialect, verifyFn, parseFn, printFn)]. *)
Definition DynamicOpDefinition_get_custom (ctx : MLIRContext) (name : string)
    (dialect : DialectPtr) (verifyFn : Operation → LogicalResult)
    (parseFn : AsmParser → OperationState → ParseResult * AsmParser * OperationState)
    (printFn : Operation → OStream → OStream)
    : Outcome (DynamicOpDefinition * MLIRContext) :=
  _ ← assert (negb (contains name "."%char)) "name should not be prefixed by the dialect name";
  DynamicOpDefinition_ctor ctx name dialect verifyFn parseFn printFn.

(** ** Extensible dialect *)

(** [Dialect::Dialect(name, ctx, typeID)]. *)
Definition Dialect_ctor (name : string) (id : TypeID) : Dialect :=
  mkDialect name id [] ∅ ∅.

(** Modelled from the spec: [Dialect::addInterfaces], which attaches a
    capability marker to the dialect. *)
Definition addInterface (d : Dialect) (i : DialectInterfaceID) : Dialect :=
  mkDialect (getNamespace d) (dialectTypeID d) (i :: registeredInterfaces d)
    (dynTypes d) (nameToDynTypes d).

(** Modelled from the spec: [Dialect::getRegisteredInterface], the "does
    this support X" query on the capability markers; [true] for a non-null
    result. *)
Definition getRegisteredInterface (d : Dialect) (i : DialectInterfaceID) : bool :=
  bool_decide (i ∈ registeredInterfaces d).

(** [ExtensibleDialect::ExtensibleDialect(name, ctx, typeID)]. *)
Definition ExtensibleDialect_ctor (name : string) (id : TypeID) : Dialect :=
  addInterface (Dialect_ctor name id) IsExtensibleDialect.

(** A dialect object placed in the store of the context. *)
Definition new_dialect (ctx : MLIRContext) (d : Dialect) : DialectPtr * MLIRContext :=
  (length (dialects ctx), set_dialects ctx (dialects ctx ++ [d])).

(** [new ExtensibleDialect(name, ctx, typeID)]. *)
Definition new_ExtensibleDialect (ctx : MLIRContext) (name : string) (id : TypeID)
    : DialectPtr * MLIRContext :=
  new_dialect ctx (ExtensibleDialect_ctor name id).

(** A write to the members of the dialect object at [this]. *)
Definition store_dialect (ctx : MLIRContext) (this : DialectPtr) (d : Dialect) : MLIRContext :=
  set_dialects ctx (<[this := d]> (dialects ctx)).

(** Modelled from the spec: [Dialect::addType], which records the abstract
    type of a registered kind under its identifier. *)
Definition addType (ctx : MLIRContext) (id : TypeID) (abstractType : AbstractType)
    : MLIRContext :=
  set_registeredTypes ctx (<[id := abstractType]> (registeredTypes ctx)).

(** [ExtensibleDialect::addDynamicType]. *)
Definition addDynamicType (ctx : MLIRContext) (this : DialectPtr) (type : DefPtr)
    : Outcome MLIRContext :=
  self ← deref (dialects ctx) this;
  def ← deref (typeDefs ctx) type;
  let typePtr := type in
  let typeID := typeID def in
  let name := name def in
  let dialect := dialect def in
  _ ← assert (bool_decide (dialect = this))
        "trying to register a dynamic type in the wrong dialect";
  (* If a type with the same name is already defined, fail. *)
  let registered := bool_decide (dynTypes self !! typeID = None) in
  let dynTypes' := if registered then <[typeID := type]> (dynTypes self) else dynTypes self in
  _ ← assert registered "generated TypeID was not unique";
  let registered := bool_decide (nameToDynTypes self !! name = None) in
  let nameToDynTypes' :=
    if registered then <[name := typePtr]> (nameToDynTypes self) else nameToDynTypes self in
  _ ← assert registered "Trying to create a new dynamic type with an existing name";
  let ctx := store_dialect ctx this
               (mkDialect (getNamespace self) (dialectTypeID self)
                  (registeredInterfaces self) dynTypes' nameToDynTypes') in
  let interfaceMap := [IsDynamicTypeInterface] in
  let abstractType := mkAbstractType dialect interfaceMap typeID in
  (* Add the type to the dialect and the type uniquer. *)
  let ctx := addType ctx typeID abstractType in
  registerInTypeUniquer ctx typePtr.

(** Modelled from the spec: [AbstractOperation::insert], the global
    operation catalog, which accepts the hooks of an operation under its
    qualified name. *)
Definition AbstractOperation_insert (ctx : MLIRContext) (op : AbstractOperation)
    : MLIRContext :=
  set_registeredOperations ctx (<[ao_name op := op]> (registeredOperations ctx)).

(** [ExtensibleDialect::addDynamicOp]. *)
Definition addDynamicOp (ctx : MLIRContext) (this : DialectPtr) (type : DynamicOpDefinition)
    : Outcome MLIRContext :=
  _ ← deref (dialects ctx) this;
  _ ← assert (bool_decide (op_dialect type = this))
        "trying to register a dynamic op in the wrong dialect";
  let foldHook := λ (op : Operation) (operands : list Attribute), failure in
  let getCanonicalizationPatterns := λ (patterns : list string), patterns in
  let hasTraitFn := λ (traitId : TypeID), false in
  Ok (AbstractOperation_insert ctx
        (mkAbstractOperation (op_name type) (op_dialect type) (op_typeID type)
           (parseFn type) (printFn type) (verifyFn type) foldHook
           getCanonicalizationPatterns [] hasTraitFn)).

(** [ExtensibleDialect::classof]. *)
Definition classof (ctx : MLIRContext) (dialect : DialectPtr) : Outcome bool :=
  d ← deref (dialects ctx) dialect;
  Ok (getRegisteredInterface d IsExtensibleDialect).

(** Modelled from the spec: [ExtensibleDialect::lookupTypeDefinition], the
    "namespace-local name lookup". *)
Definition lookupTypeDefinition (d : Dialect) (name : string) : option DefPtr :=
  nameToDynTypes d !! name.

(** [ExtensibleDialect::parseOptionalDynamicType]; the result is [None]
    when the name is not the name of a dynamic type of the dialect. *)
Definition parseOptionalDynamicType (ctx : MLIRContext) (this : DialectPtr)
    (typeName : string) (p : AsmParser) (resultType : DynamicType)
    : Outcome (option ParseResult * AsmParser * DynamicType * MLIRContext) :=
  self ← deref (dialects ctx) this;
  match lookupTypeDefinition self typeName with
  | Some typeDef =>
      '(r, p, dynType, ctx) ← DynamicType_parse ctx p typeDef None;
      if failed r then Ok (Some failure, p, resultType, ctx)
      else Ok (Some success, p, dynType, ctx)
  | None => Ok (None, p, resultType, ctx)
  end.

(** ** The operations that change a context *)

(** The instance the uniquer holds for a definition and a parameter list,
    if it holds one. *)
Definition cached (ctx : MLIRContext) (typeDef : DefPtr) (params : list Attribute)
    : option StoragePtr :=
  match typeDefs ctx !! typeDef with
  | Some def => uniquerLookup ctx (typeID def) (typeDef, params)
  | None => None
  end.

(** One call of a function of this file that returns, from the context it
    is given to the context it leaves. *)
Inductive step : MLIRContext → MLIRContext → Prop :=
| step_new_ExtensibleDialect ctx name id :
    step ctx (new_ExtensibleDialect ctx name id).2
| step_DynamicTypeDefinition_get ctx dialect name verifier ptr ctx' :
    DynamicTypeDefinition_get ctx dialect name verifier = Ok (ptr, ctx') →
    step ctx ctx'
| step_DynamicTypeDefinition_get_custom ctx dialect name verifier parser printer ptr ctx' :
    DynamicTypeDefinition_get_custom ctx dialect name verifier parser printer = Ok (ptr, ctx') →
    step ctx ctx'
| step_DynamicOpDefinition_get ctx name dialect verifyFn def ctx' :
    DynamicOpDefinition_get ctx name dialect verifyFn = Ok (def, ctx') →
    step ctx ctx'
| step_DynamicOpDefinition_get_custom ctx name dialect verifyFn parseFn printFn def ctx' :
    DynamicOpDefinition_get_custom ctx name dialect verifyFn parseFn printFn = Ok (def, ctx') →
    step ctx ctx'
| step_addDynamicType ctx this type ctx' :
    addDynamicType ctx this type = Ok ctx' →
    step ctx ctx'
| step_addDynamicOp ctx this type ctx' :
    addDynamicOp ctx this type = Ok ctx' →
    step ctx ctx'
| step_DynamicType_get ctx typeDef params t ctx' :
    DynamicType_get ctx typeDef params = Ok (t, ctx') →
    step ctx ctx'
| step_DynamicType_getChecked (Sink : Type) (emit : string → Sink → Sink) sink
    ctx typeDef params t sink' ctx' :
    DynamicType_getChecked emit sink ctx typeDef params = Ok (t, sink', ctx') →
    step ctx ctx'
| step_DynamicType_parse ctx p typeDef parsedType r p' t ctx' :
    DynamicType_parse ctx p typeDef parsedType = Ok (r, p', t, ctx') →
    step ctx ctx'
| step_parseOptionalDynamicType ctx this typeName p resultType r p' t ctx' :
    parseOptionalDynamicType ctx this typeName p resultType = Ok (r, p', t, ctx') →
    step ctx ctx'.

(** Any number of such calls, one after the other. *)
Definition steps : MLIRContext → MLIRContext → Prop := rtc step.

(** What no call takes back: the definitions and the storages stay where
    they are, and an instance held for a key stays the instance held for
    that key. *)
Definition extends (ctx ctx' : MLIRContext) : Prop :=
  typeDefs ctx `prefix_of` typeDefs ctx' ∧
  arena ctx `prefix_of` arena ctx' ∧
  ∀ typeDef params ptr,
    cached ctx typeDef params = Some ptr → cached ctx' typeDef params = Some ptr.

(** The dialect object after a registration that passes the assertions. *)
Definition registered_dialect (self : Dialect) (def : DynamicTypeDefinition) (type : nat)
    : Dialect :=
  mkDialect (getNamespace self) (dialectTypeID self) (registeredInterfaces self)
    (<[typeID def := type]> (dynTypes self)) (<[name def := type]> (nameToDynTypes self)).

(** What a call keeps of the dialects: each stays in its place, with its
    namespace and its interfaces. *)
Definition keeps_dialects (ctx ctx' : MLIRContext) : Prop :=
  ∀ d x, dialects ctx !! d = Some x →
    ∃ x', dialects ctx' !! d = Some x' ∧
          getNamespace x' = getNamespace x ∧
          registeredInterfaces x' = registeredInterfaces x.

(** ** The parameter list of the spec *)

(** What may follow an attribute value in the list: the end delimiter, or a
    comma, one more attribute value, and what may follow that one. *)
Inductive more_params : list Token → list Attribute → list Token → Prop :=
| more_params_end rest :
    more_params (Tok_greater :: rest) [] rest
| more_params_comma ts a n ps rest :
    parseAttributeTokens ts = Some (a, n) →
    more_params (drop n ts) ps rest →
    more_params (Tok_comma :: ts) (a :: ps) rest.

(** The words of the spec for the default parse hook: "a comma-separated
    sequence of at least one attribute value terminated by the
    end-parameter-list delimiter".  [attr_list ts ps rest]: the input [ts]
    starts with such a sequence, its values are [ps], and [rest] is the
    input after its end delimiter. *)
Inductive attr_list : list Token → list Attribute → list Token → Prop :=
| attr_list_intro ts a n ps rest :
    parseAttributeTokens ts = Some (a, n) →
    more_params (drop n ts) ps rest →
    attr_list ts (a :: ps) rest.

(** The text the default printer writes after the first parameter. *)
Fixpoint printMoreParams (params : list Attribute) : list Token :=
  match params with
  | [] => [Tok_greater]
  | a :: rest => Tok_comma :: printAttribute a ++ printMoreParams rest
  end.

(** * Properties *)

(** ** Results and stores *)

Lemma bind_Ok {A B} (m : Outcome A) (f : A → Outcome B) (b : B) :
  m ≫= f = Ok b ↔ ∃ a, m = Ok a ∧ f a = Ok b.
Proof.
  destruct m as [a| |]; cbn; split.
  - eauto.
  - intros (a' & [= <-] & Hf). exact Hf.
  - discriminate.
  - intros (? & [=] & _).
  - discriminate.
  - intros (? & [=] & _).
Qed.

Lemma deref_Ok {A} (store : list A) (ptr : nat) (a : A) :
  deref store ptr = Ok a ↔ store !! ptr = Some a.
Proof. unfold deref. destruct (store !! ptr); split; congruence. Qed.

Lemma deref_Some {A} (store : list A) (ptr : nat) (a : A) :
  store !! ptr = Some a → deref store ptr = Ok a.
Proof. apply deref_Ok. Qed.

Lemma assert_Ok (cond : bool) (msg : string) (u : unit) :
  assert cond msg = Ok u ↔ cond = true.
Proof. unfold assert. destruct cond, u; split; congruence. Qed.

(** Takes a hypothesis [m ≫= f = Ok b] apart, as far as it goes. *)
Ltac inv_Ok H :=
  repeat match type of H with
  | _ ≫= _ = Ok _ =>
      let a := fresh "a" in
      let H1 := fresh "H" in
      apply bind_Ok in H; destruct H as (a & H1 & H);
      first [ apply deref_Ok in H1 | apply assert_Ok in H1 | idtac ]
  end.

(** ** [List.find] on a table *)

Lemma find_agree {A} (f g : A → bool) (l : list A) :
  (∀ x, x ∈ l → f x = g x) → List.find f l = List.find g l.
Proof.
  induction l as [|x l IH]; intros Hfg; [reflexivity|]. cbn.
  rewrite <- (Hfg x) by left.
  destruct (f x); [reflexivity|]. apply IH. intros y Hy. apply Hfg. by right.
Qed.

Lemma find_app_Some {A} (f : A → bool) (l k : list A) (x : A) :
  List.find f l = Some x → List.find f (l ++ k) = Some x.
Proof.
  induction l as [|y l IH]; cbn; [discriminate|].
  destruct (f y); [trivial|]. exact IH.
Qed.

Lemma find_app_None {A} (f : A → bool) (l k : list A) :
  List.find f l = None → List.find f (l ++ k) = List.find f k.
Proof.
  induction l as [|y l IH]; cbn; [trivial|].
  destruct (f y); [discriminate|]. exact IH.
Qed.

Lemma find_Some_holds {A} (f : A → bool) (l : list A) (x : A) :
  List.find f l = Some x → f x = true.
Proof.
  induction l as [|y l IH]; cbn; [discriminate|].
  destruct (f y) eqn:Hy; [|exact IH]. by intros [= <-].
Qed.

Lemma find_fresh {A} `{!EqDecision A} (f f' : A → bool) (l : list A) (x : A) :
  List.find f l = None →
  (∀ y, y ≠ x → f' y = f y) →
  f' x = true →
  List.find f' (l ++ [x]) = Some x.
Proof.
  intros Hnone Hagree Hx.
  induction l as [|y l IH]; cbn in *; [by rewrite Hx|].
  destruct (f y) eqn:Hy; [discriminate|].
  destruct (f' y) eqn:Hy'; [|by apply IH].
  f_equal. apply dec_stable. intros Hne.
  rewrite (Hagree y Hne) in Hy'. congruence.
Qed.

(** ** The uniquer *)

Lemma DynamicTypeStorage_eq_spec (s : DynamicTypeStorage) (key : KeyTy) :
  DynamicTypeStorage_eq s key = true ↔ s = DynamicTypeStorage_construct key.
Proof.
  unfold DynamicTypeStorage_eq, DynamicTypeStorage_construct.
  rewrite andb_true_iff, !bool_decide_eq_true.
  destruct s as [d ps], key as [d' ps']; cbn. split.
  - by intros [-> ->].
  - by intros [= -> ->].
Qed.

Lemma DynamicTypeStorage_construct_inj (k1 k2 : KeyTy) :
  DynamicTypeStorage_construct k1 = DynamicTypeStorage_construct k2 → k1 = k2.
Proof. destruct k1, k2. by intros [= -> ->]. Qed.

(** A hit resolves to a storage equal to the key. *)
Lemma uniquerLookup_Some (ctx : MLIRContext) (id : TypeID) (key : KeyTy) (ptr : StoragePtr) :
  uniquerLookup ctx id key = Some ptr →
  arena ctx !! ptr = Some (DynamicTypeStorage_construct key).
Proof.
  intros H. apply find_Some_holds in H.
  destruct (arena ctx !! ptr) as [s|]; [|discriminate].
  apply DynamicTypeStorage_eq_spec in H. by subst.
Qed.

Lemma getWithTypeID_arena (ctx ctx' : MLIRContext) id key ptr :
  TypeUniquer_getWithTypeID ctx id key = (ptr, ctx') →
  arena ctx `prefix_of` arena ctx' ∧
  arena ctx' !! ptr = Some (DynamicTypeStorage_construct key).
Proof.
  unfold TypeUniquer_getWithTypeID.
  destruct (uniquerLookup ctx id key) as [q|] eqn:Hq; intros [= <- <-].
  - split; [done|]. by eapply uniquerLookup_Some.
  - cbn. split; [by apply prefix_app_r|].
    rewrite lookup_app_r by lia. by rewrite Nat.sub_diag.
Qed.

Lemma getWithTypeID_rest (ctx ctx' : MLIRContext) id key ptr :
  TypeUniquer_getWithTypeID ctx id key = (ptr, ctx') →
  nextTypeID ctx' = nextTypeID ctx ∧ dialects ctx' = dialects ctx ∧
  typeDefs ctx' = typeDefs ctx ∧ registeredTypes ctx' = registeredTypes ctx ∧
  registeredOperations ctx' = registeredOperations ctx.
Proof.
  unfold TypeUniquer_getWithTypeID.
  destruct (uniquerLookup ctx id key); by intros [= <- <-].
Qed.

(** The arena as the uniquer sees it after a storage was added: old
    pointers resolve as before, the new one resolves to the new storage. *)
Lemma arena_snoc_lookup (a : list DynamicTypeStorage) (s : DynamicTypeStorage) (ptr : nat) :
  (a ++ [s]) !! ptr = if decide (ptr = length a) then Some s else a !! ptr.
Proof.
  case_decide as Hp.
  - subst. rewrite lookup_app_r by lia. by rewrite Nat.sub_diag.
  - destruct (decide (ptr < length a)).
    + by rewrite lookup_app_l.
    + rewrite !lookup_ge_None_2; [done|lia|rewrite length_app; cbn; lia].
Qed.

(** After a call, the key is held, by the instance the call returned. *)
Lemma getWithTypeID_held (ctx ctx' : MLIRContext) id key ptr :
  TypeUniquer_getWithTypeID ctx id key = (ptr, ctx') →
  uniquerLookup ctx' id key = Some ptr.
Proof.
  unfold TypeUniquer_getWithTypeID.
  destruct (uniquerLookup ctx id key) as [q|] eqn:Hq; intros [= <- <-]; [done|].
  unfold uniquerLookup, uniquerTable in *. cbn.
  rewrite lookup_insert_eq. cbn.
  apply find_fresh with (f := λ ptr, match arena ctx !! ptr with
                                     | Some s => DynamicTypeStorage_eq s key
                                     | None => false
                                     end); [done| |].
  - intros y Hy. rewrite arena_snoc_lookup. by case_decide.
  - rewrite arena_snoc_lookup. case_decide; [|done].
    by apply DynamicTypeStorage_eq_spec.
Qed.

(** A call for one key leaves the instances held for the other keys. *)
Lemma getWithTypeID_cached (ctx ctx' : MLIRContext) typeDef' def' params' ptr
    typeDef params q :
  typeDefs ctx !! typeDef' = Some def' →
  TypeUniquer_getWithTypeID ctx (typeID def') (typeDef', params') = (ptr, ctx') →
  cached ctx typeDef params = Some q →
  cached ctx' typeDef params = Some q.
Proof.
  intros Hdef' Hget. unfold cached.
  destruct (getWithTypeID_rest _ _ _ _ _ Hget) as (_ & _ & -> & _).
  destruct (typeDefs ctx !! typeDef) as [def|] eqn:Hdef; [|discriminate].
  revert Hget. unfold TypeUniquer_getWithTypeID.
  destruct (uniquerLookup ctx (typeID def') (typeDef', params')) eqn:Hmiss;
    intros [= <- <-]; [done|].
  intros Hq.
  assert (Hkey : (typeDef', params') ≠ (typeDef, params)).
  { intros [= -> ->]. congruence. }
  unfold uniquerLookup, uniquerTable in *. cbn.
  set (tbl := default [] (typeUniquer ctx !! typeID def)) in *.
  assert (Hfind : List.find
            (λ ptr, match (arena ctx ++ [DynamicTypeStorage_construct (typeDef', params')]) !! ptr with
                    | Some s => DynamicTypeStorage_eq s (typeDef, params)
                    | None => false
                    end) tbl = Some q).
  { rewrite <- Hq. apply find_agree. intros y _.
    rewrite arena_snoc_lookup. case_decide as Hy; [|done].
    subst y. rewrite lookup_ge_None_2 by lia.
    apply not_true_is_false. intros Heq.
    apply DynamicTypeStorage_eq_spec, DynamicTypeStorage_construct_inj in Heq.
    by apply Hkey. }
  destruct (decide (typeID def' = typeID def)) as [Hid|Hid].
  - rewrite Hid, lookup_insert_eq. cbn. by apply find_app_Some.
  - by rewrite lookup_insert_ne.
Qed.

(** ** What the calls keep *)

Lemma extends_refl (ctx : MLIRContext) : extends ctx ctx.
Proof. by repeat split. Qed.

Lemma extends_trans (ctx1 ctx2 ctx3 : MLIRContext) :
  extends ctx1 ctx2 → extends ctx2 ctx3 → extends ctx1 ctx3.
Proof.
  intros (Hd & Ha & Hc) (Hd' & Ha' & Hc'). repeat split.
  - by etrans.
  - by etrans.
  - eauto.
Qed.

(** A call that leaves the uniquer alone and only adds definitions. *)
Lemma extends_same_uniquer (ctx ctx' : MLIRContext) :
  typeDefs ctx `prefix_of` typeDefs ctx' →
  arena ctx' = arena ctx →
  (∀ id, uniquerTable ctx' id = uniquerTable ctx id) →
  extends ctx ctx'.
Proof.
  intros Hd Ha Hu. repeat split; [done|by rewrite Ha|].
  intros typeDef params ptr. unfold cached.
  destruct (typeDefs ctx !! typeDef) as [def|] eqn:Hdef; [|discriminate].
  rewrite (prefix_lookup_Some _ _ _ _ Hdef Hd).
  unfold uniquerLookup. by rewrite Hu, Ha.
Qed.

Lemma DynamicType_get_extends (ctx ctx' : MLIRContext) typeDef params t :
  DynamicType_get ctx typeDef params = Ok (t, ctx') → extends ctx ctx'.
Proof.
  unfold DynamicType_get. intros H. inv_Ok H.
  destruct (TypeUniquer_getWithTypeID _ _ _) as [ptr ctx1] eqn:Hget.
  injection H as <- <-.
  destruct (getWithTypeID_rest _ _ _ _ _ Hget) as (_ & _ & Hd & _).
  destruct (getWithTypeID_arena _ _ _ _ _ Hget) as (Ha & _).
  repeat split; [by rewrite Hd|done|].
  intros. by eapply getWithTypeID_cached.
Qed.

Lemma DynamicType_getChecked_extends {Sink} (emit : string → Sink → Sink) sink
    (ctx ctx' : MLIRContext) typeDef params t sink' :
  DynamicType_getChecked emit sink ctx typeDef params = Ok (t, sink', ctx') →
  extends ctx ctx'.
Proof.
  unfold DynamicType_getChecked. intros H. inv_Ok H.
  destruct (verify _ _ _ _) as [r sink1].
  destruct (failed r).
  - injection H as <- <- <-. apply extends_refl.
  - inv_Ok H. destruct a0 as [t1 ctx1]. injection H as <- <- <-.
    by eapply DynamicType_get_extends.
Qed.

Lemma DynamicType_parse_extends (ctx ctx' : MLIRContext) p typeDef parsedType r p' t :
  DynamicType_parse ctx p typeDef parsedType = Ok (r, p', t, ctx') →
  extends ctx ctx'.
Proof.
  unfold DynamicType_parse. intros H. inv_Ok H.
  destruct (parser a p []) as [[[r1 p1] params1]|]; [|discriminate].
  destruct (failed r1).
  - injection H as <- <- <- <-. apply extends_refl.
  - inv_Ok H. destruct a0 as [[t1 p2] ctx1]. injection H as <- <- <- <-.
    by eapply DynamicType_getChecked_extends.
Qed.

Lemma parseOptionalDynamicType_extends (ctx ctx' : MLIRContext) this typeName p
    resultType r p' t :
  parseOptionalDynamicType ctx this typeName p resultType = Ok (r, p', t, ctx') →
  extends ctx ctx'.
Proof.
  unfold parseOptionalDynamicType. intros H. inv_Ok H.
  destruct (lookupTypeDefinition a typeName) as [typeDef|].
  - inv_Ok H. destruct a0 as [[[r1 p1] t1] ctx1].
    apply DynamicType_parse_extends in H1.
    destruct (failed r1); injection H as <- <- <- <-; exact H1.
  - injection H as <- <- <- <-. apply extends_refl.
Qed.

Lemma DynamicTypeDefinition_ctor_extends (ctx ctx' : MLIRContext) dialect nameRef
    verifier parser printer def :
  DynamicTypeDefinition_ctor ctx dialect nameRef verifier parser printer = Ok (def, ctx') →
  typeDefs ctx' = typeDefs ctx ∧ arena ctx' = arena ctx ∧
  typeUniquer ctx' = typeUniquer ctx ∧ dialects ctx' = dialects ctx.
Proof.
  unfold DynamicTypeDefinition_ctor. intros H. inv_Ok H. cbn in H. inv_Ok H.
  by injection H as <- <-.
Qed.

Lemma new_typeDef_extends (ctx1 ctx : MLIRContext) (def : DynamicTypeDefinition) :
  typeDefs ctx1 = typeDefs ctx → arena ctx1 = arena ctx →
  typeUniquer ctx1 = typeUniquer ctx →
  extends ctx (new_typeDef ctx1 def).2.
Proof.
  intros Hd Ha Hu. apply extends_same_uniquer; cbn.
  - rewrite Hd. by apply prefix_app_r.
  - done.
  - intros id. unfold uniquerTable. cbn. by rewrite Hu.
Qed.

Lemma addDynamicType_extends (ctx ctx' : MLIRContext) this type :
  addDynamicType ctx this type = Ok ctx' → extends ctx ctx'.
Proof.
  unfold addDynamicType. intros H. inv_Ok H.
  unfold registerInTypeUniquer in H. cbn in H. inv_Ok H.
  injection H as <-. apply extends_same_uniquer; cbn; [done..|].
  intros id. unfold uniquerTable. cbn.
  match goal with
  | |- context [<[?k := _]> _ !! _] => destruct (decide (k = id)) as [->|Hne]
  end.
  - by rewrite lookup_insert_eq.
  - by rewrite lookup_insert_ne.
Qed.

Lemma DynamicOpDefinition_ctor_extends (ctx ctx' : MLIRContext) name dialect
    verifyFn parseFn printFn def :
  DynamicOpDefinition_ctor ctx name dialect verifyFn parseFn printFn = Ok (def, ctx') →
  extends ctx ctx'.
Proof.
  unfold DynamicOpDefinition_ctor. intros H. inv_Ok H. cbn in H.
  injection H as <- <-. by apply extends_same_uniquer.
Qed.

Lemma step_extends (ctx ctx' : MLIRContext) : step ctx ctx' → extends ctx ctx'.
Proof.
  destruct 1 as [ctx name id
    | ctx dialect name verifier ptr ctx' H
    | ctx dialect name verifier parser printer ptr ctx' H
    | ctx name dialect verifyFn def ctx' H
    | ctx name dialect verifyFn parseFn printFn def ctx' H
    | ctx this type ctx' H
    | ctx this type ctx' H
    | ctx typeDef params t ctx' H
    | Sink emit sink ctx typeDef params t sink' ctx' H
    | ctx p typeDef parsedType r p' t ctx' H
    | ctx this typeName p resultType r p' t ctx' H].
  - by apply extends_same_uniquer.
  - unfold DynamicTypeDefinition_get in H. inv_Ok H. destruct a as [def ctx1].
    injection H as <- <-.
    apply DynamicTypeDefinition_ctor_extends in H0 as (? & ? & ? & _).
    by apply new_typeDef_extends.
  - unfold DynamicTypeDefinition_get_custom in H. inv_Ok H. destruct a as [def ctx1].
    injection H as <- <-.
    apply DynamicTypeDefinition_ctor_extends in H0 as (? & ? & ? & _).
    by apply new_typeDef_extends.
  - by eapply DynamicOpDefinition_ctor_extends.
  - unfold DynamicOpDefinition_get_custom in H. inv_Ok H.
    by eapply DynamicOpDefinition_ctor_extends.
  - by eapply addDynamicType_extends.
  - unfold addDynamicOp in H. inv_Ok H. injection H as <-.
    by apply extends_same_uniquer.
  - by eapply DynamicType_get_extends.
  - by eapply DynamicType_getChecked_extends.
  - by eapply DynamicType_parse_extends.
  - by eapply parseOptionalDynamicType_extends.
Qed.

Lemma steps_extends (ctx ctx' : MLIRContext) : steps ctx ctx' → extends ctx ctx'.
Proof.
  induction 1 as [|ctx1 ctx2 ctx3 H _ IH]; [apply extends_refl|].
  eapply extends_trans; [by apply step_extends|exact IH].
Qed.

(** ** [DynamicType::get] *)

(** [get] returns an instance for every definition of the context. *)
Lemma DynamicType_get_returns (ctx : MLIRContext) typeDef params :
  is_Some (typeDefs ctx !! typeDef) →
  ∃ ptr ctx', DynamicType_get ctx typeDef params = Ok (Some ptr, ctx').
Proof.
  intros [def Hdef]. unfold DynamicType_get.
  rewrite (deref_Some _ _ _ Hdef). cbn.
  destruct (TypeUniquer_getWithTypeID _ _ _) as [ptr ctx']. eauto.
Qed.

(** The instance [get] returns is the one held for its key from then on,
    and its storage is the key. *)
Lemma DynamicType_get_held (ctx ctx' : MLIRContext) typeDef params t :
  DynamicType_get ctx typeDef params = Ok (t, ctx') →
  ∃ ptr, t = Some ptr ∧ cached ctx' typeDef params = Some ptr ∧
         arena ctx' !! ptr = Some (DynamicTypeStorage_construct (typeDef, params)).
Proof.
  unfold DynamicType_get. intros H. inv_Ok H.
  destruct (TypeUniquer_getWithTypeID _ _ _) as [ptr ctx1] eqn:Hget.
  injection H as <- <-. exists ptr. split; [done|]. split.
  - unfold cached.
    destruct (getWithTypeID_rest _ _ _ _ _ Hget) as (_ & _ & -> & _).
    rewrite H0. by eapply getWithTypeID_held.
  - by eapply getWithTypeID_arena.
Qed.

(** A key that is held is answered from the cache, which stays as it is. *)
Lemma DynamicType_get_hit (ctx : MLIRContext) typeDef params ptr :
  cached ctx typeDef params = Some ptr →
  DynamicType_get ctx typeDef params = Ok (Some ptr, ctx).
Proof.
  unfold cached, DynamicType_get, deref.
  destruct (typeDefs ctx !! typeDef) as [def|]; [|discriminate]. cbn.
  unfold TypeUniquer_getWithTypeID. by intros ->.
Qed.

(** C1.  Two calls of [DynamicType::get], with any calls of the functions
    of this file in between, return the same instance if and only if they
    are given the same definition and element-wise equal parameter lists:
    equal keys share one canonical instance, and keys that differ in the
    definition or in the parameters get distinct instances. *)
Theorem DynamicType_get_same_instance_iff (ctx ctx1 ctx1' ctx2 : MLIRContext)
    (D1 D2 : nat) (P1 P2 : list Attribute) (t1 t2 : DynamicType) :
  DynamicType_get ctx D1 P1 = Ok (t1, ctx1) →
  steps ctx1 ctx1' →
  DynamicType_get ctx1' D2 P2 = Ok (t2, ctx2) →
  (t1 = t2 ↔ D1 = D2 ∧ P1 = P2).
Proof.
  intros Hget1 Hsteps Hget2.
  destruct (DynamicType_get_held _ _ _ _ _ Hget1) as (q1 & -> & Hheld1 & Hs1).
  destruct (DynamicType_get_held _ _ _ _ _ Hget2) as (q2 & -> & Hheld2 & Hs2).
  destruct (steps_extends _ _ Hsteps) as (_ & Ha & Hc).
  destruct (DynamicType_get_extends _ _ _ _ _ Hget2) as (_ & Ha2 & _).
  split.
  - intros [= <-].
    pose proof (prefix_lookup_Some _ _ _ _ Hs1 Ha) as Hs1'.
    pose proof (prefix_lookup_Some _ _ _ _ Hs1' Ha2) as Hs1''.
    assert (Hk : DynamicTypeStorage_construct (D1, P1)
                 = DynamicTypeStorage_construct (D2, P2)) by congruence.
    apply DynamicTypeStorage_construct_inj in Hk. by injection Hk as -> ->.
  - intros [<- <-]. apply Hc in Hheld1.
    rewrite (DynamicType_get_hit _ _ _ _ Hheld1) in Hget2. by injection Hget2 as <- _.
Qed.

(** ** [DynamicType::getChecked] *)

(** With a verifier that accepts, [getChecked] is [get]. *)
Lemma DynamicType_getChecked_accepted {Sink} (emit : string → Sink → Sink) sink
    (ctx : MLIRContext) typeDef def params :
  typeDefs ctx !! typeDef = Some def →
  failed (verifier def params).1 = false →
  ∃ ptr sink' ctx',
    DynamicType_get ctx typeDef params = Ok (Some ptr, ctx') ∧
    DynamicType_getChecked emit sink ctx typeDef params = Ok (Some ptr, sink', ctx').
Proof.
  intros Hdef Hok.
  destruct (DynamicType_get_returns ctx typeDef params) as (ptr & ctx' & Hget); [by eauto|].
  unfold DynamicType_getChecked, verify.
  rewrite (deref_Some _ _ _ Hdef). cbn.
  destruct (verifier def params) as [r msgs]. cbn in Hok. rewrite Hok.
  rewrite Hget. cbn. eauto.
Qed.

(** With a verifier that rejects, [getChecked] returns the null instance
    and the context it was given. *)
Lemma DynamicType_getChecked_rejected {Sink} (emit : string → Sink → Sink) sink
    (ctx : MLIRContext) typeDef def params :
  typeDefs ctx !! typeDef = Some def →
  failed (verifier def params).1 = true →
  DynamicType_getChecked emit sink ctx typeDef params
  = Ok (None, (verify def emit sink params).2, ctx).
Proof.
  intros Hdef Hrej. unfold DynamicType_getChecked.
  rewrite (deref_Some _ _ _ Hdef). cbn.
  unfold verify. destruct (verifier def params) as [r msgs]. cbn in *.
  by rewrite Hrej.
Qed.

(** C2.  When the verifier of the definition rejects the parameter list,
    [DynamicType::getChecked] returns the failure value (the null instance)
    and the context it was given: the cache of the uniquer is as it was,
    no entry for the key was inserted.  A later [getChecked] with the same
    definition and a parameter list that the verifier accepts returns an
    instance, the one [get] returns for it, whatever was called in
    between. *)
Theorem DynamicType_getChecked_gating {Sink : Type} (emit : string → Sink → Sink)
    (sink sink2 : Sink) (ctx ctx2 : MLIRContext) (D : nat)
    (def : DynamicTypeDefinition) (P P' : list Attribute) :
  typeDefs ctx !! D = Some def →
  failed (verifier def P).1 = true →
  failed (verifier def P').1 = false →
  steps ctx ctx2 →
  (∃ sink1, DynamicType_getChecked emit sink ctx D P = Ok (None, sink1, ctx)) ∧
  (∃ ptr sink3 ctx3,
     DynamicType_getChecked emit sink2 ctx2 D P' = Ok (Some ptr, sink3, ctx3) ∧
     DynamicType_get ctx2 D P' = Ok (Some ptr, ctx3) ∧
     cached ctx3 D P' = Some ptr).
Proof.
  intros Hdef Hrej Hok Hsteps. split.
  - eexists. by apply DynamicType_getChecked_rejected.
  - destruct (steps_extends _ _ Hsteps) as (Hd & _ & _).
    pose proof (prefix_lookup_Some _ _ _ _ Hdef Hd) as Hdef2.
    destruct (DynamicType_getChecked_accepted emit sink2 ctx2 D def P' Hdef2 Hok)
      as (ptr & sink3 & ctx3 & Hget & Hchk).
    exists ptr, sink3, ctx3. split; [done|]. split; [done|].
    destruct (DynamicType_get_held _ _ _ _ _ Hget) as (q & [= <-] & Hq & _). done.
Qed.

(** ** [DynamicType::parse] *)

(** A failure of the parse hook is a failure of [parse]; the context and
    the result variable are left as they were. *)
Lemma DynamicType_parse_hook_fails (ctx : MLIRContext) p typeDef def parsedType p1 params :
  typeDefs ctx !! typeDef = Some def →
  parser def p [] = Some (failure, p1, params) →
  DynamicType_parse ctx p typeDef parsedType = Ok (failure, p1, parsedType, ctx).
Proof.
  intros Hdef Hhook. unfold DynamicType_parse.
  rewrite (deref_Some _ _ _ Hdef). cbn. by rewrite Hhook.
Qed.

(** When the parse hook succeeds and the verifier rejects the parameters,
    [parse] reports success and sets the result to the null instance. *)
Lemma DynamicType_parse_verifier_rejects (ctx : MLIRContext) p typeDef def parsedType
    p1 params :
  typeDefs ctx !! typeDef = Some def →
  parser def p [] = Some (success, p1, params) →
  failed (verifier def params).1 = true →
  ∃ p2, DynamicType_parse ctx p typeDef parsedType = Ok (success, p2, None, ctx).
Proof.
  intros Hdef Hhook Hrej. unfold DynamicType_parse.
  rewrite (deref_Some _ _ _ Hdef). cbn. rewrite Hhook. cbn.
  erewrite DynamicType_getChecked_rejected by done. cbn. eauto.
Qed.

(** When the parse hook succeeds and the verifier accepts the parameters,
    [parse] returns the instance of [get]. *)
Lemma DynamicType_parse_accepted (ctx : MLIRContext) p typeDef def parsedType p1 params :
  typeDefs ctx !! typeDef = Some def →
  parser def p [] = Some (success, p1, params) →
  failed (verifier def params).1 = false →
  ∃ ptr p2 ctx',
    DynamicType_get ctx typeDef params = Ok (Some ptr, ctx') ∧
    tokens p2 = tokens p1 ∧
    DynamicType_parse ctx p typeDef parsedType = Ok (success, p2, Some ptr, ctx').
Proof.
  intros Hdef Hhook Hok. unfold DynamicType_parse.
  rewrite (deref_Some _ _ _ Hdef). cbn. rewrite Hhook. cbn.
  set (emit := λ (msg : string) (p : AsmParser), emitError p (getCurrentLocation p) msg).
  destruct (DynamicType_getChecked_accepted emit p1 ctx typeDef def params Hdef Hok)
    as (ptr & p2 & ctx' & Hget & Hchk).
  exists ptr, p2, ctx'. split; [done|]. rewrite Hchk. cbn. split; [|done].
  (* the messages of the verifier do not move the parser *)
  unfold DynamicType_getChecked, verify in Hchk.
  rewrite (deref_Some _ _ _ Hdef) in Hchk. cbn in Hchk.
  destruct (verifier def params) as [r msgs]. cbn in Hok. rewrite Hok in Hchk.
  rewrite Hget in Hchk. cbn in Hchk. injection Hchk as <-.
  clear. revert p1. induction msgs as [|m msgs IH]; intros p1; cbn; [done|].
  by rewrite IH.
Qed.

(** ** The default parser *)

Lemma more_params_det ts ps ps' rest rest' :
  more_params ts ps rest → more_params ts ps' rest' → ps = ps' ∧ rest = rest'.
Proof.
  intros H. revert ps' rest'.
  induction H as [rest|ts a n ps rest Ha _ IH]; intros ps' rest' H'.
  - by inversion H'.
  - inversion H' as [|ts0 a0 n0 ps0 rest0 Ha0 Hmore]; subst.
    rewrite Ha in Ha0. injection Ha0 as <- <-.
    destruct (IH _ _ Hmore) as [-> ->]. done.
Qed.

Lemma attr_list_det ts ps ps' rest rest' :
  attr_list ts ps rest → attr_list ts ps' rest' → ps = ps' ∧ rest = rest'.
Proof.
  intros [ts0 a n ps0 rest0 Ha Hmore] H'.
  inversion H' as [ts1 a1 n1 ps1 rest1 Ha1 Hmore1]; subst.
  rewrite Ha in Ha1. injection Ha1 as <- <-.
  destruct (more_params_det _ _ _ _ _ Hmore Hmore1) as [-> ->]. done.
Qed.

Lemma attr_list_nonempty ts ps rest : attr_list ts ps rest → ps ≠ [].
Proof. by intros []. Qed.

(** The loop of the default parser reads what may follow an attribute
    value, or fails with an error where nothing of the kind is found. *)
Lemma parseMoreParams_spec (fuel : nat) (p : AsmParser) (parsedParams : list Attribute) :
  length (tokens p) < fuel →
  (∃ ps rest,
     more_params (tokens p) ps rest ∧
     parseMoreParams fuel p parsedParams
     = Some (success, consume p rest, parsedParams ++ ps))
  ∨
  ((¬ ∃ ps rest, more_params (tokens p) ps rest) ∧
   ∃ p' ps loc msg,
     parseMoreParams fuel p parsedParams = Some (failure, p', parsedParams ++ ps) ∧
     diagnostics p' = diagnostics p ++ [mkDiagnostic loc msg]).
Proof.
  revert p parsedParams.
  induction fuel as [|fuel IH]; intros [ts diags] acc Hfuel; [lia|].
  cbn in Hfuel. cbn [parseMoreParams].
  destruct ts as [|tok ts].
  { right. split; [intros (? & ? & H); inversion H|].
    cbn. exists (emitError (mkAsmParser [] diags) [] "expected ','"), [], [], "expected ','".
    by rewrite app_nil_r. }
  destruct (decide (tok = Tok_greater)) as [->|Hgt].
  { left. exists [], ts. split; [constructor|]. cbn. by rewrite app_nil_r. }
  destruct (decide (tok = Tok_comma)) as [->|Hcomma].
  - cbn. unfold parseAttribute. cbn.
    destruct (parseAttributeTokens ts) as [[a n]|] eqn:Ha.
    + cbn.
      destruct (IH (mkAsmParser (drop n ts) diags) (acc ++ [a]))
        as [(ps & rest & Hmore & Hrun)|(Hnone & p' & ps & loc & msg & Hrun & Hdiag)].
      { cbn. rewrite length_drop. cbn in Hfuel. lia. }
      all: unfold consume in *; cbn [tokens diagnostics] in *.
      * left. exists (a :: ps), rest. split; [by econstructor|].
        rewrite Hrun. by rewrite <- app_assoc.
      * right. split.
        { intros (ps' & rest' & H). inversion H; subst.
          apply Hnone. cbn. rewrite Ha in *. simplify_eq. eauto. }
        exists p', (a :: ps), loc, msg. rewrite Hrun. by rewrite <- app_assoc.
    + right. split.
      { intros (ps' & rest' & H). inversion H; subst. congruence. }
      cbn. eexists _, [], _, _. rewrite app_nil_r. split; [reflexivity|]. done.
  - right. split; [intros (? & ? & H); inversion H; congruence|].
    destruct tok; try congruence; cbn;
      eexists _, [], _, _; rewrite app_nil_r; (split; [reflexivity|done]).
Qed.

Lemma defaultParser_not_less (p : AsmParser) (parsedParams : list Attribute) :
  head (tokens p) ≠ Some Tok_less →
  defaultParser p parsedParams = Some (success, p, parsedParams).
Proof.
  destruct p as [[|tok ts] diags]; [done|].
  unfold defaultParser, parseOptionalLess. cbn. intros Hne.
  destruct tok; done.
Qed.

Lemma defaultParser_less_greater (p : AsmParser) (parsedParams : list Attribute) rest :
  tokens p = Tok_less :: Tok_greater :: rest →
  defaultParser p parsedParams = Some (success, consume p rest, parsedParams).
Proof.
  destruct p as [ts diags]. cbn. intros ->. reflexivity.
Qed.

Lemma defaultParser_attr_list (p : AsmParser) (parsedParams : list Attribute) ts :
  tokens p = Tok_less :: ts →
  head ts ≠ Some Tok_greater →
  (∃ ps rest,
     attr_list ts ps rest ∧
     defaultParser p parsedParams = Some (success, consume p rest, parsedParams ++ ps))
  ∨
  ((¬ ∃ ps rest, attr_list ts ps rest) ∧
   ∃ p' ps loc msg,
     defaultParser p parsedParams = Some (failure, p', parsedParams ++ ps) ∧
     diagnostics p' = diagnostics p ++ [mkDiagnostic loc msg]).
Proof.
  destruct p as [ts0 diags]. cbn. intros -> Hhead.
  unfold defaultParser. cbn -[parseMoreParams].
  assert (parseOptionalGreater (consume (mkAsmParser (Tok_less :: ts) diags) ts)
          = (failure, mkAsmParser ts diags)) as ->.
  { unfold parseOptionalGreater, consume. cbn. destruct ts as [|[] ?]; done. }
  cbn -[parseMoreParams]. unfold parseAttribute. cbn -[parseMoreParams].
  destruct (parseAttributeTokens ts) as [[a n]|] eqn:Ha.
  - unfold consume. cbn -[parseMoreParams].
    destruct (parseMoreParams_spec (S (length (drop n ts)))
                (mkAsmParser (drop n ts) diags) (parsedParams ++ [a]))
      as [(ps & rest & Hmore & Hrun)|(Hnone & p' & ps & loc & msg & Hrun & Hdiag)];
      [cbn; lia|..]; cbn -[parseMoreParams] in *.
    + left. exists (a :: ps), rest. split; [by econstructor|].
      rewrite Hrun. by rewrite <- app_assoc.
    + right. split.
      * intros (ps' & rest' & H). inversion H; subst.
        apply Hnone. rewrite Ha in *. simplify_eq. eauto.
      * exists p', (a :: ps), loc, msg. rewrite Hrun. by rewrite <- app_assoc.
  - right. split.
    + intros (ps' & rest' & H). inversion H; subst. congruence.
    + eexists _, [], _, _. rewrite app_nil_r. split; [reflexivity|]. done.
Qed.

(** The default parser always returns. *)
Lemma defaultParser_returns (p : AsmParser) (parsedParams : list Attribute) :
  ∃ r p' ps, defaultParser p parsedParams = Some (r, p', ps).
Proof.
  destruct (decide (head (tokens p) = Some Tok_less)) as [Hless|Hless].
  - destruct p as [[|tok ts] diags]; [done|]. injection Hless as ->.
    destruct (decide (head ts = Some Tok_greater)) as [Hgt|Hgt].
    + destruct ts as [|tok ts]; [done|]. injection Hgt as ->.
      eexists _, _, _. by apply defaultParser_less_greater.
    + destruct (defaultParser_attr_list (mkAsmParser (Tok_less :: ts) diags) parsedParams ts)
        as [(ps & rest & _ & H)|(_ & p' & ps & _ & _ & H & _)]; eauto.
  - eexists _, _, _. by apply defaultParser_not_less.
Qed.

(** C4 (amended).  The default parse hook of a type definition created
    without a custom parser returns an empty parameter list (it adds
    nothing to the parameters) when the next token is not ['<'], and also
    when ['<'] is directly followed by ['>'].  Otherwise, after ['<'], it
    reads a comma-separated sequence of at least one attribute value
    terminated by ['>'] and succeeds with these values, or, if the input
    is not such a sequence, fails with the error of the primitive that
    failed. *)
Theorem defaultParser_spec (p : AsmParser) (parsedParams : list Attribute) :
  (head (tokens p) ≠ Some Tok_less →
   defaultParser p parsedParams = Some (success, p, parsedParams)) ∧
  (∀ rest, tokens p = Tok_less :: Tok_greater :: rest →
   defaultParser p parsedParams = Some (success, consume p rest, parsedParams)) ∧
  (∀ ts, tokens p = Tok_less :: ts → head ts ≠ Some Tok_greater →
   (∃ ps rest,
      attr_list ts ps rest ∧ ps ≠ [] ∧
      defaultParser p parsedParams = Some (success, consume p rest, parsedParams ++ ps))
   ∨
   ((¬ ∃ ps rest, attr_list ts ps rest) ∧
    ∃ p' ps loc msg,
      defaultParser p parsedParams = Some (failure, p', parsedParams ++ ps) ∧
      diagnostics p' = diagnostics p ++ [mkDiagnostic loc msg])).
Proof.
  split; [apply defaultParser_not_less|].
  split; [intros rest; apply defaultParser_less_greater|].
  intros ts Hts Hhead.
  destruct (defaultParser_attr_list p parsedParams ts Hts Hhead)
    as [(ps & rest & Hlist & Hrun)|Hfail]; [left|by right].
  exists ps, rest. split; [done|]. split; [by eapply attr_list_nonempty|done].
Qed.

(** ** The default printer *)

Lemma interleaveComma_app (params : list Attribute) (os : OStream) :
  interleaveComma params os = os ++ interleaveComma params [].
Proof.
  revert os. induction params as [|a [|b params] IH]; intros os.
  - by rewrite app_nil_r.
  - done.
  - change (interleaveComma (a :: b :: params) os)
      with (interleaveComma (b :: params) (os ++ printAttribute a ++ [Tok_comma])).
    change (interleaveComma (a :: b :: params) [])
      with (interleaveComma (b :: params) ([] ++ printAttribute a ++ [Tok_comma])).
    rewrite IH. rewrite (IH ([] ++ _)). cbn. by rewrite <- !app_assoc.
Qed.

Lemma defaultPrinter_cons (os : OStream) (a : Attribute) (params : list Attribute) :
  defaultPrinter os (a :: params)
  = os ++ Tok_less :: printAttribute a ++ printMoreParams params.
Proof.
  unfold defaultPrinter. rewrite decide_False by done.
  rewrite interleaveComma_app. rewrite <- !app_assoc. cbn. do 2 f_equal.
  revert a. induction params as [|b params IH]; intros a; [done|].
  change (interleaveComma (a :: b :: params) [])
    with (interleaveComma (b :: params) ([] ++ printAttribute a ++ [Tok_comma])).
  rewrite interleaveComma_app. cbn. rewrite <- !app_assoc. cbn.
  f_equal. f_equal. apply IH.
Qed.

Lemma defaultPrinter_nil (os : OStream) : defaultPrinter os [] = os.
Proof. done. Qed.

Lemma defaultPrinter_app (os : OStream) (params : list Attribute) :
  defaultPrinter os params = os ++ defaultPrinter [] params.
Proof.
  destruct params as [|a params].
  - by rewrite !defaultPrinter_nil, app_nil_r.
  - by rewrite !defaultPrinter_cons.
Qed.

(** ** Printing, then parsing *)

Section RoundTrip.

(** The attribute parser reads back what the attribute printer writes,
    whatever follows it. *)
Hypothesis parse_printAttribute : ∀ a rest,
  parseAttributeTokens (printAttribute a ++ rest) = Some (a, length (printAttribute a)).

(** The text of an attribute is not empty and does not start with ['>']. *)
Hypothesis printAttribute_head : ∀ a,
  ∃ tok text, printAttribute a = tok :: text ∧ tok ≠ Tok_greater.

Lemma printMoreParams_parses (ps : list Attribute) (rest : list Token) :
  more_params (printMoreParams ps ++ rest) ps rest.
Proof.
  induction ps as [|a ps IH]; cbn; [constructor|].
  rewrite <- app_assoc.
  econstructor; [apply parse_printAttribute|].
  by rewrite drop_app_length.
Qed.

(** The default parser reads back what the default printer writes. *)
Lemma defaultParser_defaultPrinter (ps : list Attribute) (rest : list Token)
    (diags : list Diagnostic) (parsedParams : list Attribute) :
  (ps = [] → head rest ≠ Some Tok_less) →
  defaultParser (mkAsmParser (defaultPrinter [] ps ++ rest) diags) parsedParams
  = Some (success, mkAsmParser rest diags, parsedParams ++ ps).
Proof.
  intros Hrest. destruct ps as [|a ps].
  - rewrite defaultPrinter_nil, app_nil_r. cbn.
    apply defaultParser_not_less. cbn. by apply Hrest.
  - rewrite defaultPrinter_cons. cbn. rewrite <- app_assoc.
    set (ts := printAttribute a ++ printMoreParams ps ++ rest).
    assert (Hlist : attr_list ts (a :: ps) rest).
    { unfold ts. econstructor; [apply parse_printAttribute|].
      rewrite drop_app_length. apply printMoreParams_parses. }
    assert (Hhead : head ts ≠ Some Tok_greater).
    { unfold ts. destruct (printAttribute_head a) as (tok & text & -> & Hne).
      cbn. congruence. }
    destruct (defaultParser_attr_list (mkAsmParser (Tok_less :: ts) diags)
                parsedParams ts eq_refl Hhead)
      as [(ps' & rest' & Hlist' & Hrun)|(Hnone & _)].
    + destruct (attr_list_det _ _ _ _ _ Hlist Hlist') as [<- <-]. exact Hrun.
    + exfalso. apply Hnone. eauto.
Qed.

(** C5 (amended).  For a type definition with the default parse and print
    hooks and an instance whose parameter list the verifier of the
    definition accepts, printing the instance and parsing the printed text
    again yields the same instance, for the empty parameter list (printed
    as the name alone) and for any number of parameters (printed as
    [name<a, b, c>]); the attribute parser is taken to read back what the
    attribute printer writes. *)
Theorem DynamicType_print_parse_round_trip (ctx ctx1 ctx2 : MLIRContext) (D : nat)
    (def : DynamicTypeDefinition) (P : list Attribute) (t : DynamicType) :
  typeDefs ctx !! D = Some def →
  parser def = defaultParser →
  printer def = defaultPrinter →
  failed (verifier def P).1 = false →
  DynamicType_get ctx D P = Ok (t, ctx1) →
  steps ctx1 ctx2 →
  ∃ text,
    DynamicType_print ctx2 t [] = Ok (Tok_bare_identifier (name def) :: text) ∧
    text = defaultPrinter [] P ∧
    (P = [] → text = []) ∧
    ∀ diags parsedType,
      ∃ p', DynamicType_parse ctx2 (mkAsmParser text diags) D parsedType
            = Ok (success, p', t, ctx2) ∧
            tokens p' = [].
Proof.
  intros Hdef Hparser Hprinter Hok Hget Hsteps.
  destruct (DynamicType_get_held _ _ _ _ _ Hget) as (q & -> & Hheld & Hs).
  destruct (DynamicType_get_extends _ _ _ _ _ Hget) as (Hd1 & _ & _).
  destruct (steps_extends _ _ Hsteps) as (Hd2 & Ha2 & Hc2).
  pose proof (prefix_lookup_Some _ _ _ _ Hdef Hd1) as Hdef1.
  pose proof (prefix_lookup_Some _ _ _ _ Hdef1 Hd2) as Hdef2.
  pose proof (prefix_lookup_Some _ _ _ _ Hs Ha2) as Hs2.
  apply Hc2 in Hheld.
  exists (defaultPrinter [] P). split; [|split; [done|split]].
  - unfold DynamicType_print, getTypeDef, getParams, getImpl.
    rewrite (deref_Some _ _ _ Hs2). cbn.
    rewrite (deref_Some _ _ _ Hdef2). cbn.
    rewrite Hprinter. by rewrite defaultPrinter_app.
  - by intros ->.
  - intros diags parsedType.
    assert (Hhook : parser def (mkAsmParser (defaultPrinter [] P) diags) []
                    = Some (success, mkAsmParser [] diags, P)).
    { rewrite Hparser.
      rewrite <- (app_nil_r (defaultPrinter [] P)).
      by rewrite defaultParser_defaultPrinter. }
    destruct (DynamicType_parse_accepted ctx2 _ D def parsedType _ _ Hdef2 Hhook Hok)
      as (ptr & p2 & ctx' & Hget2 & Htok & Hparse).
    rewrite (DynamicType_get_hit _ _ _ _ Hheld) in Hget2.
    injection Hget2 as <- <-. eauto.
Qed.

End RoundTrip.

(** ** [DynamicType::print] *)

(** [DynamicType::print] writes the name member of the definition, then
    calls the print hook. *)
Lemma DynamicType_print_unfold (ctx : MLIRContext) (t : DynamicType)
    (os : OStream) (impl : DynamicTypeStorage) (def : DynamicTypeDefinition) :
  getImpl ctx t = Ok impl →
  typeDefs ctx !! typeDef impl = Some def →
  DynamicType_print ctx t os
  = Ok (printer def (os ++ [Tok_bare_identifier (name def)]) (params impl)).
Proof.
  intros Himpl Hdef. unfold DynamicType_print, getTypeDef, getParams.
  rewrite Himpl. cbn. by rewrite (deref_Some _ _ _ Hdef).
Qed.

Lemma DynamicTypeDefinition_ctor_Ok (ctx ctx' : MLIRContext) dialect nameRef
    verifier parser printer def :
  DynamicTypeDefinition_ctor ctx dialect nameRef verifier parser printer = Ok (def, ctx') →
  is_Some (dialects ctx !! dialect) ∧
  contains nameRef "."%char = false ∧
  def = mkDynamicTypeDefinition nameRef dialect verifier parser printer (nextTypeID ctx) ∧
  ctx' = (allocateTypeID ctx).2.
Proof.
  unfold DynamicTypeDefinition_ctor. intros H.
  apply bind_Ok in H as (self & Hself & H). apply deref_Ok in Hself.
  cbn in H. apply bind_Ok in H as ([] & Hassert & H).
  apply assert_Ok, negb_true_iff in Hassert.
  injection H as <- <-. by eauto.
Qed.

(** The name stored in a definition is the name given to
    [DynamicTypeDefinition::get], and it has no ['.']. *)
Lemma DynamicTypeDefinition_get_name (ctx ctx' : MLIRContext) dialect nameRef verifier ptr :
  DynamicTypeDefinition_get ctx dialect nameRef verifier = Ok (ptr, ctx') →
  ∃ def, typeDefs ctx' !! ptr = Some def ∧ name def = nameRef ∧
         contains (name def) "."%char = false ∧
         parser def = defaultParser ∧ printer def = defaultPrinter.
Proof.
  unfold DynamicTypeDefinition_get. intros H.
  apply bind_Ok in H as ([def ctx1] & Hctor & H). injection H as <- <-.
  apply DynamicTypeDefinition_ctor_Ok in Hctor as (_ & Hname & -> & ->).
  eexists. split.
  - cbn. rewrite lookup_app_r by lia. by rewrite Nat.sub_diag.
  - done.
Qed.

(** ** Dynamic operations *)

Lemma DynamicOpDefinition_ctor_returns (ctx : MLIRContext) name dialect self vf pf prf :
  dialects ctx !! dialect = Some self →
  ∃ def ctx',
    DynamicOpDefinition_ctor ctx name dialect vf pf prf = Ok (def, ctx') ∧
    op_name def = getNamespace self +:+ "." +:+ name ∧
    op_dialect def = dialect ∧
    op_typeID def = nextTypeID ctx ∧
    verifyFn def = vf ∧ parseFn def = pf ∧ printFn def = prf.
Proof.
  intros Hself. unfold DynamicOpDefinition_ctor.
  rewrite (deref_Some _ _ _ Hself). cbn. eexists _, _. by repeat split.
Qed.

Lemma DynamicOpDefinition_ctor_Ok (ctx ctx' : MLIRContext) name dialect vf pf prf def :
  DynamicOpDefinition_ctor ctx name dialect vf pf prf = Ok (def, ctx') →
  ∃ self, dialects ctx !! dialect = Some self ∧
          op_name def = getNamespace self +:+ "." +:+ name ∧
          op_dialect def = dialect ∧
          parseFn def = pf ∧ printFn def = prf.
Proof.
  unfold DynamicOpDefinition_ctor. intros H.
  apply bind_Ok in H as (self & Hself & H). apply deref_Ok in Hself.
  cbn in H. injection H as <- <-. by exists self.
Qed.

(** C6.  An operation definition made by the verifier-only
    [DynamicOpDefinition::get] has a parse hook that fails on every call
    and emits, at the current location, the error ["dynamic operation do
    not define any parser function"], which is not the empty message; its
    print hook always returns, with the output of [printGenericOp], the
    generic form of the operation. *)
Theorem DynamicOpDefinition_get_default_hooks (ctx ctx' : MLIRContext) (name : string)
    (dialect : nat) (verifyFn : Operation → LogicalResult) (def : DynamicOpDefinition) :
  DynamicOpDefinition_get ctx name dialect verifyFn = Ok (def, ctx') →
  (∀ (p : AsmParser) (result : OperationState),
     ∃ msg,
       parseFn def p result = (failure, emitError p (getCurrentLocation p) msg, result) ∧
       msg = "dynamic operation do not define any parser function" ∧
       msg ≠ "" ∧
       diagnostics (parseFn def p result).1.2
       = diagnostics p ++ [mkDiagnostic (tokens p) msg]) ∧
  (∀ (op : Operation) (os : OStream), printFn def op os = printGenericOp op os).
Proof.
  unfold DynamicOpDefinition_get. intros H.
  apply DynamicOpDefinition_ctor_Ok in H as (self & _ & _ & _ & Hparse & Hprint).
  split.
  - intros p result. rewrite Hparse. eexists. by repeat split.
  - intros op os. by rewrite Hprint.
Qed.

(** The full [DynamicOpDefinition::get] checks the name. *)
Lemma DynamicOpDefinition_get_custom_rejects (ctx : MLIRContext) name dialect
    verifyFn parseFn printFn :
  contains name "."%char = true →
  DynamicOpDefinition_get_custom ctx name dialect verifyFn parseFn printFn
  = AssertionFailure "name should not be prefixed by the dialect name".
Proof. unfold DynamicOpDefinition_get_custom. by intros ->. Qed.

Lemma DynamicOpDefinition_get_custom_Ok (ctx ctx' : MLIRContext) name dialect
    verifyFn parseFn printFn def :
  DynamicOpDefinition_get_custom ctx name dialect verifyFn parseFn printFn = Ok (def, ctx') →
  contains name "."%char = false ∧
  ∃ self, dialects ctx !! dialect = Some self ∧
          op_name def = getNamespace self +:+ "." +:+ name.
Proof.
  unfold DynamicOpDefinition_get_custom. intros H.
  apply bind_Ok in H as ([] & Hassert & H).
  apply assert_Ok, negb_true_iff in Hassert. split; [done|].
  apply DynamicOpDefinition_ctor_Ok in H as (self & ? & ? & _). eauto.
Qed.

(** The verifier-only [DynamicOpDefinition::get] does not check the name:
    it returns a definition for every name, with or without ['.']. *)
Lemma DynamicOpDefinition_get_unchecked (ctx : MLIRContext) name dialect self verifyFn :
  dialects ctx !! dialect = Some self →
  ∃ def ctx',
    DynamicOpDefinition_get ctx name dialect verifyFn = Ok (def, ctx') ∧
    op_name def = getNamespace self +:+ "." +:+ name.
Proof.
  intros Hself. unfold DynamicOpDefinition_get.
  destruct (DynamicOpDefinition_ctor_returns ctx name dialect self verifyFn
              noParserFn genericPrintFn Hself) as (def & ctx' & H & Hname & _).
  eauto.
Qed.

(** ** Registration of a dynamic type *)

Lemma addDynamicType_cases (ctx : MLIRContext) this type self def :
  dialects ctx !! this = Some self →
  typeDefs ctx !! type = Some def →
  addDynamicType ctx this type =
    if negb (bool_decide (dialect def = this)) then
      AssertionFailure "trying to register a dynamic type in the wrong dialect"
    else if negb (bool_decide (dynTypes self !! typeID def = None)) then
      AssertionFailure "generated TypeID was not unique"
    else if negb (bool_decide (nameToDynTypes self !! name def = None)) then
      AssertionFailure "Trying to create a new dynamic type with an existing name"
    else
      Ok (TypeUniquer_registerType
            (addType (store_dialect ctx this (registered_dialect self def type))
               (typeID def) (mkAbstractType (dialect def) [IsDynamicTypeInterface] (typeID def)))
            (typeID def)).
Proof.
  intros Hself Hdef. unfold addDynamicType.
  rewrite (deref_Some _ _ _ Hself), (deref_Some _ _ _ Hdef). cbn.
  destruct (bool_decide (dialect def = this)); [|done]. cbn.
  destruct (bool_decide (dynTypes self !! typeID def = None)); [|done]. cbn.
  destruct (bool_decide (nameToDynTypes self !! name def = None)); [|done]. cbn.
  unfold registerInTypeUniquer. cbn. by rewrite (deref_Some _ _ _ Hdef).
Qed.

(** C8.  [addDynamicType] stops at a failed assertion exactly when the
    dialect the definition declares as its owner is not the dialect it is
    registered into, or its identifier is already registered in the
    dialect, or its name is already registered in the dialect.  When none
    of these holds no assertion fails, and afterwards the dialect maps both
    the identifier and the name of the definition to the definition. *)
Theorem addDynamicType_assertions (ctx : MLIRContext) (this type : nat)
    (self : Dialect) (def : DynamicTypeDefinition) :
  dialects ctx !! this = Some self →
  typeDefs ctx !! type = Some def →
  (is_assertion_failure (addDynamicType ctx this type) ↔
     dialect def ≠ this ∨
     is_Some (dynTypes self !! typeID def) ∨
     is_Some (nameToDynTypes self !! name def)) ∧
  (dialect def = this →
   dynTypes self !! typeID def = None →
   nameToDynTypes self !! name def = None →
   ∃ ctx' self',
     addDynamicType ctx this type = Ok ctx' ∧
     dialects ctx' !! this = Some self' ∧
     dynTypes self' !! typeID def = Some type ∧
     nameToDynTypes self' !! name def = Some type).
Proof.
  intros Hself Hdef. rewrite (addDynamicType_cases _ _ _ _ _ Hself Hdef).
  split.
  - unfold is_assertion_failure.
    destruct (decide (dialect def = this)) as [Hown|Hown].
    2: { rewrite bool_decide_eq_false_2 by done. cbn. split; [by left|by eauto]. }
    rewrite bool_decide_eq_true_2 by done. cbn.
    destruct (dynTypes self !! typeID def) as [x|] eqn:Hid.
    { rewrite bool_decide_eq_false_2 by done. cbn.
      split; [right; left; by eauto|by eauto]. }
    rewrite bool_decide_eq_true_2 by done. cbn.
    destruct (nameToDynTypes self !! name def) as [y|] eqn:Hname.
    { rewrite bool_decide_eq_false_2 by done. cbn.
      split; [right; right; by eauto|by eauto]. }
    rewrite bool_decide_eq_true_2 by done. cbn. split.
    + intros [msg [=]].
    + intros [?|[[? [=]]|[? [=]]]]. done.
  - intros Hown Hid Hname.
    rewrite !bool_decide_eq_true_2 by done. cbn.
    eexists _, (registered_dialect self def type). split; [reflexivity|].
    cbn. split; [|split].
    + apply list_lookup_insert_eq. by eapply lookup_lt_Some.
    + apply lookup_insert_eq.
    + apply lookup_insert_eq.
Qed.

(** ** The marker of extensible dialects *)

Lemma keeps_dialects_same (ctx ctx' : MLIRContext) :
  dialects ctx' = dialects ctx → keeps_dialects ctx ctx'.
Proof. intros Heq d x Hx. exists x. by rewrite Heq. Qed.

Lemma keeps_dialects_trans (ctx1 ctx2 ctx3 : MLIRContext) :
  keeps_dialects ctx1 ctx2 → keeps_dialects ctx2 ctx3 → keeps_dialects ctx1 ctx3.
Proof.
  intros H12 H23 d x Hx.
  destruct (H12 _ _ Hx) as (x2 & Hx2 & Hn2 & Hi2).
  destruct (H23 _ _ Hx2) as (x3 & Hx3 & Hn3 & Hi3).
  exists x3. split; [done|]. split; congruence.
Qed.

Lemma DynamicType_get_dialects (ctx ctx' : MLIRContext) typeDef params t :
  DynamicType_get ctx typeDef params = Ok (t, ctx') → dialects ctx' = dialects ctx.
Proof.
  unfold DynamicType_get. intros H.
  apply bind_Ok in H as (def & _ & H).
  destruct (TypeUniquer_getWithTypeID _ _ _) as [ptr ctx1] eqn:Hget.
  injection H as <- <-. by apply getWithTypeID_rest in Hget as (_ & ? & _).
Qed.

Lemma DynamicType_getChecked_dialects {Sink} (emit : string → Sink → Sink) sink
    (ctx ctx' : MLIRContext) typeDef params t sink' :
  DynamicType_getChecked emit sink ctx typeDef params = Ok (t, sink', ctx') →
  dialects ctx' = dialects ctx.
Proof.
  unfold DynamicType_getChecked. intros H.
  apply bind_Ok in H as (def & _ & H).
  destruct (verify _ _ _ _) as [r sink1]. destruct (failed r).
  - by injection H as <- <- <-.
  - apply bind_Ok in H as ([t1 ctx1] & Hget & H). injection H as <- <- <-.
    by eapply DynamicType_get_dialects.
Qed.

Lemma DynamicType_parse_dialects (ctx ctx' : MLIRContext) p typeDef parsedType r p' t :
  DynamicType_parse ctx p typeDef parsedType = Ok (r, p', t, ctx') →
  dialects ctx' = dialects ctx.
Proof.
  unfold DynamicType_parse. intros H.
  apply bind_Ok in H as (def & _ & H).
  destruct (parser def p []) as [[[r1 p1] params1]|]; [|discriminate].
  destruct (failed r1).
  - by injection H as <- <- <- <-.
  - apply bind_Ok in H as ([[t1 p2] ctx1] & Hchk & H). injection H as <- <- <- <-.
    by eapply DynamicType_getChecked_dialects.
Qed.

Lemma step_keeps_dialects (ctx ctx' : MLIRContext) : step ctx ctx' → keeps_dialects ctx ctx'.
Proof.
  destruct 1 as [ctx name id
    | ctx dialect name verifier ptr ctx' H
    | ctx dialect name verifier parser printer ptr ctx' H
    | ctx name dialect verifyFn def ctx' H
    | ctx name dialect verifyFn parseFn printFn def ctx' H
    | ctx this type ctx' H
    | ctx this type ctx' H
    | ctx typeDef params t ctx' H
    | Sink emit sink ctx typeDef params t sink' ctx' H
    | ctx p typeDef parsedType r p' t ctx' H
    | ctx this typeName p resultType r p' t ctx' H].
  - intros d x Hx. exists x. cbn. split; [|done]. by apply lookup_app_l_Some.
  - unfold DynamicTypeDefinition_get in H.
    apply bind_Ok in H as ([def ctx1] & Hctor & H). injection H as <- <-.
    apply DynamicTypeDefinition_ctor_Ok in Hctor as (_ & _ & _ & ->).
    by apply keeps_dialects_same.
  - unfold DynamicTypeDefinition_get_custom in H.
    apply bind_Ok in H as ([def ctx1] & Hctor & H). injection H as <- <-.
    apply DynamicTypeDefinition_ctor_Ok in Hctor as (_ & _ & _ & ->).
    by apply keeps_dialects_same.
  - unfold DynamicOpDefinition_get, DynamicOpDefinition_ctor in H.
    apply bind_Ok in H as (self & _ & H). cbn in H. injection H as <- <-.
    by apply keeps_dialects_same.
  - unfold DynamicOpDefinition_get_custom, DynamicOpDefinition_ctor in H.
    apply bind_Ok in H as ([] & _ & H).
    apply bind_Ok in H as (self & _ & H). cbn in H. injection H as <- <-.
    by apply keeps_dialects_same.
  - assert (∃ self def, dialects ctx !! this = Some self ∧ typeDefs ctx !! type = Some def)
      as (self & def & Hself & Hdef).
    { unfold addDynamicType in H.
      apply bind_Ok in H as (self & Hself & H). apply deref_Ok in Hself.
      apply bind_Ok in H as (def & Hdef & H). apply deref_Ok in Hdef. eauto. }
    rewrite (addDynamicType_cases _ _ _ _ _ Hself Hdef) in H.
    repeat (destruct (negb _); [discriminate|]). injection H as <-.
    intros d x Hx. cbn.
    destruct (decide (d = this)) as [->|Hne].
    + exists (registered_dialect self def type).
      rewrite list_lookup_insert_eq by (by eapply lookup_lt_Some).
      rewrite Hself in Hx. by injection Hx as <-.
    + exists x. by rewrite list_lookup_insert_ne.
  - unfold addDynamicOp in H.
    apply bind_Ok in H as (self & _ & H).
    apply bind_Ok in H as ([] & _ & H). injection H as <-.
    by apply keeps_dialects_same.
  - apply keeps_dialects_same. by eapply DynamicType_get_dialects.
  - apply keeps_dialects_same. by eapply DynamicType_getChecked_dialects.
  - apply keeps_dialects_same. by eapply DynamicType_parse_dialects.
  - apply keeps_dialects_same. unfold parseOptionalDynamicType in H.
    apply bind_Ok in H as (self & _ & H).
    destruct (lookupTypeDefinition self typeName) as [typeDef|].
    + apply bind_Ok in H as ([[[r1 p1] t1] ctx1] & Hparse & H).
      apply DynamicType_parse_dialects in Hparse.
      destruct (failed r1); by injection H as <- <- <- <-.
    + by injection H as <- <- <- <-.
Qed.

Lemma steps_keep_dialects (ctx ctx' : MLIRContext) : steps ctx ctx' → keeps_dialects ctx ctx'.
Proof.
  induction 1 as [ctx|ctx1 ctx2 ctx3 H _ IH]; [by apply keeps_dialects_same|].
  eapply keeps_dialects_trans; [by apply step_keeps_dialects|exact IH].
Qed.

(** A dialect that is not extensible does not carry the marker. *)
Lemma Dialect_ctor_not_extensible (ctx : MLIRContext) name id :
  classof (new_dialect ctx (Dialect_ctor name id)).2
          (new_dialect ctx (Dialect_ctor name id)).1 = Ok false.
Proof.
  unfold classof, new_dialect, deref. cbn.
  rewrite lookup_app_r by lia. by rewrite Nat.sub_diag.
Qed.

(** C10.  An extensible dialect carries the [IsExtensibleDialect] interface
    from its construction on: [ExtensibleDialect::classof] is true for it
    before anything is registered, and it is still true after any calls of
    the functions of this file, the registrations of dynamic types and
    operations among them. *)
Theorem ExtensibleDialect_classof_always (ctx ctx' : MLIRContext) (name : string) (id : nat) :
  steps (new_ExtensibleDialect ctx name id).2 ctx' →
  classof (new_ExtensibleDialect ctx name id).2 (new_ExtensibleDialect ctx name id).1
  = Ok true ∧
  classof ctx' (new_ExtensibleDialect ctx name id).1 = Ok true.
Proof.
  intros Hsteps.
  assert (Hnew : dialects (new_ExtensibleDialect ctx name id).2
                 !! (new_ExtensibleDialect ctx name id).1
                 = Some (ExtensibleDialect_ctor name id)).
  { cbn. rewrite lookup_app_r by lia. by rewrite Nat.sub_diag. }
  split.
  - unfold classof. by rewrite (deref_Some _ _ _ Hnew).
  - destruct (steps_keep_dialects _ _ Hsteps _ _ Hnew) as (x' & Hx' & _ & Hi).
    unfold classof. rewrite (deref_Some _ _ _ Hx'). cbn.
    unfold getRegisteredInterface. by rewrite Hi.
Qed.

(** * The rest of the file *)

(** ** What one call does to the context *)

(** The ways in which a call that returns leaves the context: as it was;
    with one more dialect; with one more type definition, whose identifier
    is the one just allocated; with one more identifier allocated; with a
    definition registered in its dialect; with one more operation in the
    table of operations; with one more storage in the arena, for a key that
    was not held. *)
Inductive effect (ctx : MLIRContext) : MLIRContext → Prop :=
| effect_none :
    effect ctx ctx
| effect_dialect name id :
    effect ctx (new_ExtensibleDialect ctx name id).2
| effect_typeDef def :
    is_Some (dialects ctx !! dialect def) →
    contains (name def) "."%char = false →
    typeID def = nextTypeID ctx →
    effect ctx (new_typeDef (allocateTypeID ctx).2 def).2
| effect_typeID :
    effect ctx (allocateTypeID ctx).2
| effect_register this type self def :
    dialects ctx !! this = Some self →
    typeDefs ctx !! type = Some def →
    dialect def = this →
    dynTypes self !! typeID def = None →
    nameToDynTypes self !! name def = None →
    effect ctx
      (TypeUniquer_registerType
         (addType (store_dialect ctx this (registered_dialect self def type))
            (typeID def) (mkAbstractType (dialect def) [IsDynamicTypeInterface] (typeID def)))
         (typeID def))
| effect_op op :
    effect ctx (AbstractOperation_insert ctx op)
| effect_storage typeDef def params :
    typeDefs ctx !! typeDef = Some def →
    uniquerLookup ctx (typeID def) (typeDef, params) = None →
    effect ctx
      (set_uniquer ctx
         (<[typeID def := uniquerTable ctx (typeID def) ++ [length (arena ctx)]]>
            (typeUniquer ctx))
         (arena ctx ++ [DynamicTypeStorage_construct (typeDef, params)])).

Lemma DynamicType_get_effect (ctx ctx' : MLIRContext) typeDef params t :
  DynamicType_get ctx typeDef params = Ok (t, ctx') → effect ctx ctx'.
Proof.
  unfold DynamicType_get. intros H.
  apply bind_Ok in H as (def & Hdef & H). apply deref_Ok in Hdef.
  unfold TypeUniquer_getWithTypeID in H.
  destruct (uniquerLookup ctx (typeID def) (typeDef, params)) eqn:Hlook;
    injection H as <- <-.
  - constructor.
  - by eapply effect_storage.
Qed.

Lemma DynamicType_getChecked_effect {Sink} (emit : string → Sink → Sink) sink
    (ctx ctx' : MLIRContext) typeDef params t sink' :
  DynamicType_getChecked emit sink ctx typeDef params = Ok (t, sink', ctx') →
  effect ctx ctx'.
Proof.
  unfold DynamicType_getChecked. intros H.
  apply bind_Ok in H as (def & _ & H).
  destruct (verify _ _ _ _) as [r sink1]. destruct (failed r).
  - injection H as <- <- <-. constructor.
  - apply bind_Ok in H as ([t1 ctx1] & Hget & H). injection H as <- <- <-.
    by eapply DynamicType_get_effect.
Qed.

Lemma DynamicType_parse_effect (ctx ctx' : MLIRContext) p typeDef parsedType r p' t :
  DynamicType_parse ctx p typeDef parsedType = Ok (r, p', t, ctx') → effect ctx ctx'.
Proof.
  unfold DynamicType_parse. intros H.
  apply bind_Ok in H as (def & _ & H).
  destruct (parser def p []) as [[[r1 p1] params1]|]; [|discriminate].
  destruct (failed r1).
  - injection H as <- <- <- <-. constructor.
  - apply bind_Ok in H as ([[t1 p2] ctx1] & Hchk & H). injection H as <- <- <- <-.
    by eapply DynamicType_getChecked_effect.
Qed.

Lemma DynamicTypeDefinition_ctor_effect (ctx ctx1 : MLIRContext) dialect nameRef
    verifier parser printer def :
  DynamicTypeDefinition_ctor ctx dialect nameRef verifier parser printer = Ok (def, ctx1) →
  effect ctx (new_typeDef ctx1 def).2.
Proof.
  intros H. apply DynamicTypeDefinition_ctor_Ok in H as (Hd & Hname & -> & ->).
  by apply effect_typeDef.
Qed.

Lemma addDynamicType_Ok (ctx ctx' : MLIRContext) this type :
  addDynamicType ctx this type = Ok ctx' →
  ∃ self def,
    dialects ctx !! this = Some self ∧ typeDefs ctx !! type = Some def ∧
    dialect def = this ∧
    dynTypes self !! typeID def = None ∧
    nameToDynTypes self !! name def = None ∧
    ctx' = TypeUniquer_registerType
             (addType (store_dialect ctx this (registered_dialect self def type))
                (typeID def)
                (mkAbstractType (dialect def) [IsDynamicTypeInterface] (typeID def)))
             (typeID def).
Proof.
  intros H.
  assert (∃ self def, dialects ctx !! this = Some self ∧ typeDefs ctx !! type = Some def)
    as (self & def & Hself & Hdef).
  { unfold addDynamicType in H.
    apply bind_Ok in H as (self & Hself & H). apply deref_Ok in Hself.
    apply bind_Ok in H as (def & Hdef & H). apply deref_Ok in Hdef. eauto. }
  rewrite (addDynamicType_cases _ _ _ _ _ Hself Hdef) in H.
  exists self, def.
  destruct (bool_decide (dialect def = this)) eqn:H1; [|discriminate].
  destruct (bool_decide (dynTypes self !! typeID def = None)) eqn:H2; [|discriminate].
  destruct (bool_decide (nameToDynTypes self !! name def = None)) eqn:H3; [|discriminate].
  apply bool_decide_eq_true in H1, H2, H3. cbn in H. injection H as <-.
  by repeat split.
Qed.

(** Every call has one of these effects. *)
Lemma step_effect (ctx ctx' : MLIRContext) : step ctx ctx' → effect ctx ctx'.
Proof.
  destruct 1 as [ctx name id
    | ctx dialect name verifier ptr ctx' H
    | ctx dialect name verifier parser printer ptr ctx' H
    | ctx name dialect verifyFn def ctx' H
    | ctx name dialect verifyFn parseFn printFn def ctx' H
    | ctx this type ctx' H
    | ctx this type ctx' H
    | ctx typeDef params t ctx' H
    | Sink emit sink ctx typeDef params t sink' ctx' H
    | ctx p typeDef parsedType r p' t ctx' H
    | ctx this typeName p resultType r p' t ctx' H].
  - constructor.
  - unfold DynamicTypeDefinition_get in H.
    apply bind_Ok in H as ([def ctx1] & Hctor & H). injection H as <- <-.
    by eapply DynamicTypeDefinition_ctor_effect.
  - unfold DynamicTypeDefinition_get_custom in H.
    apply bind_Ok in H as ([def ctx1] & Hctor & H). injection H as <- <-.
    by eapply DynamicTypeDefinition_ctor_effect.
  - unfold DynamicOpDefinition_get, DynamicOpDefinition_ctor in H.
    apply bind_Ok in H as (self & _ & H). cbn in H. injection H as <- <-.
    apply effect_typeID.
  - unfold DynamicOpDefinition_get_custom, DynamicOpDefinition_ctor in H.
    apply bind_Ok in H as ([] & _ & H).
    apply bind_Ok in H as (self & _ & H). cbn in H. injection H as <- <-.
    apply effect_typeID.
  - apply addDynamicType_Ok in H
      as (self & def & Hself & Hdef & Hown & Hid & Hname & ->).
    by apply effect_register.
  - unfold addDynamicOp in H.
    apply bind_Ok in H as (self & _ & H).
    apply bind_Ok in H as ([] & _ & H). injection H as <-.
    apply effect_op.
  - by eapply DynamicType_get_effect.
  - by eapply DynamicType_getChecked_effect.
  - by eapply DynamicType_parse_effect.
  - unfold parseOptionalDynamicType in H.
    apply bind_Ok in H as (self & _ & H).
    destruct (lookupTypeDefinition self typeName) as [typeDef|].
    + apply bind_Ok in H as ([[[r1 p1] t1] ctx1] & Hparse & H).
      apply DynamicType_parse_effect in Hparse.
      destruct (failed r1); by injection H as <- <- <- <-.
    + injection H as <- <- <- <-. constructor.
Qed.

(** An invariant of the context that every effect keeps holds after any
    number of calls. *)
Lemma steps_invariant (Inv : MLIRContext → Prop) :
  (∀ ctx ctx', Inv ctx → effect ctx ctx' → Inv ctx') →
  ∀ ctx ctx', Inv ctx → steps ctx ctx' → Inv ctx'.
Proof.
  intros Hkeep ctx ctx' Hinv Hsteps.
  induction Hsteps as [|ctx1 ctx2 ctx3 Hstep _ IH]; [done|].
  apply IH. eapply Hkeep; [done|]. by apply step_effect.
Qed.


(** ** Identifiers of the definitions *)

(** The identifiers of the type definitions were all allocated, and no two
    definitions share one. *)
Definition typeIDs_unique (ctx : MLIRContext) : Prop :=
  (∀ i d, typeDefs ctx !! i = Some d → typeID d < nextTypeID ctx) ∧
  (∀ i j di dj, typeDefs ctx !! i = Some di → typeDefs ctx !! j = Some dj →
     typeID di = typeID dj → i = j).

Lemma typeIDs_unique_empty : typeIDs_unique emptyContext.
Proof. split; intros *; cbn; by rewrite lookup_nil. Qed.

Lemma effect_typeIDs_unique (ctx ctx' : MLIRContext) :
  typeIDs_unique ctx → effect ctx ctx' → typeIDs_unique ctx'.
Proof.
  intros [Hfresh Hdist] [|name id|def Hd Hname Hid| |this type self def ? ? ? ? ?|op
                         |typeDef def params ? ?];
    unfold typeIDs_unique, new_typeDef, set_typeDefs, allocateTypeID; cbn; try done.
  - split.
    + intros i d Hi. apply lookup_app_Some in Hi as [Hi|[_ Hi]].
      * apply Hfresh in Hi. lia.
      * apply list_lookup_singleton_Some in Hi as [_ <-]. lia.
    + intros i j di dj Hi Hj Heq.
      apply lookup_app_Some in Hi as [Hi|[Hge Hi]];
        apply lookup_app_Some in Hj as [Hj|[Hge' Hj]].
      * by eapply Hdist.
      * apply list_lookup_singleton_Some in Hj as [_ <-].
        apply Hfresh in Hi. lia.
      * apply list_lookup_singleton_Some in Hi as [_ <-].
        apply Hfresh in Hj. lia.
      * apply list_lookup_singleton_Some in Hi as [Hi _].
        apply list_lookup_singleton_Some in Hj as [Hj _]. lia.
  - split; [|done]. intros i d Hi. apply Hfresh in Hi. lia.
Qed.

(** X2.  Every [DynamicTypeDefinition] constructor allocates the identifier
    of its definition, so after any calls of the functions of this file on
    a context in which the identifiers of the definitions are distinct
    (the empty context is one), two different definitions have different
    identifiers, and the identifier of each was allocated. *)
Theorem typeIDs_stay_unique (ctx ctx' : MLIRContext) (i j : nat)
    (di dj : DynamicTypeDefinition) :
  typeIDs_unique ctx →
  steps ctx ctx' →
  typeDefs ctx' !! i = Some di →
  typeDefs ctx' !! j = Some dj →
  i ≠ j →
  typeID di ≠ typeID dj ∧ typeID di < nextTypeID ctx' ∧ typeID dj < nextTypeID ctx'.
Proof.
  intros Hinv Hsteps Hi Hj Hne.
  destruct (steps_invariant typeIDs_unique effect_typeIDs_unique ctx ctx' Hinv Hsteps)
    as [Hfresh Hdist].
  split; [|by eauto]. intros Heq. apply Hne. by eapply Hdist.
Qed.

(** ** The two tables of a dialect *)

(** The table by identifier and the table by name of every dialect hold
    the same definitions: an entry of either is a definition of the
    context that names this dialect as its owner, is filed under its own
    identifier or name, and is in the other table as well. *)
Definition registry_wf (ctx : MLIRContext) : Prop :=
  ∀ this self, dialects ctx !! this = Some self →
    (∀ id ptr, dynTypes self !! id = Some ptr →
       ∃ def, typeDefs ctx !! ptr = Some def ∧ typeID def = id ∧ dialect def = this ∧
              nameToDynTypes self !! name def = Some ptr) ∧
    (∀ n ptr, nameToDynTypes self !! n = Some ptr →
       ∃ def, typeDefs ctx !! ptr = Some def ∧ name def = n ∧ dialect def = this ∧
              dynTypes self !! typeID def = Some ptr).

Lemma registry_wf_empty : registry_wf emptyContext.
Proof. intros this self. cbn. by rewrite lookup_nil. Qed.

(** A context with the same dialects and at least the same definitions. *)
Lemma registry_wf_same (ctx ctx' : MLIRContext) :
  dialects ctx' = dialects ctx →
  typeDefs ctx `prefix_of` typeDefs ctx' →
  registry_wf ctx → registry_wf ctx'.
Proof.
  intros Hd Ht Hwf this self. rewrite Hd. intros Hself.
  destruct (Hwf this self Hself) as [Hid Hname]. split.
  - intros id ptr Hptr. destruct (Hid id ptr Hptr) as (def & Hdef & ?).
    exists def. split; [by eapply prefix_lookup_Some|done].
  - intros n ptr Hptr. destruct (Hname n ptr Hptr) as (def & Hdef & ?).
    exists def. split; [by eapply prefix_lookup_Some|done].
Qed.

Lemma effect_registry_wf (ctx ctx' : MLIRContext) :
  registry_wf ctx → effect ctx ctx' → registry_wf ctx'.
Proof.
  intros Hwf [|name id|def Hd Hname Hid| |this type self def Hself Hdef Hown Hfid Hfname|op
             |typeDef def params ? ?].
  - done.
  - intros this self. cbn. intros Hs.
    apply lookup_app_Some in Hs as [Hs|[_ Hs]]; [by apply Hwf|].
    apply list_lookup_singleton_Some in Hs as [_ <-]. cbn.
    split; intros *; by rewrite lookup_empty.
  - eapply registry_wf_same; [| |exact Hwf]; cbn; [done|by apply prefix_app_r].
  - by eapply registry_wf_same; [| |exact Hwf].
  - intros d x. cbn. intros Hx.
    destruct (decide (d = this)) as [->|Hne].
    + rewrite list_lookup_insert_eq in Hx by (by eapply lookup_lt_Some).
      injection Hx as <-. cbn.
      destruct (Hwf this self Hself) as [Hid Hname]. split.
      * intros id ptr Hptr.
        destruct (decide (typeID def = id)) as [<-|Hid'].
        -- rewrite lookup_insert_eq in Hptr. injection Hptr as <-.
           exists def. by rewrite lookup_insert_eq.
        -- rewrite lookup_insert_ne in Hptr by done.
           destruct (Hid id ptr Hptr) as (def' & Hdef' & Hid'' & Hown' & Hn').
           exists def'. repeat split; [done..|].
           rewrite lookup_insert_ne; [done|]. intros Heq. congruence.
      * intros n ptr Hptr.
        destruct (decide (name def = n)) as [<-|Hn'].
        -- rewrite lookup_insert_eq in Hptr. injection Hptr as <-.
           exists def. by rewrite lookup_insert_eq.
        -- rewrite lookup_insert_ne in Hptr by done.
           destruct (Hname n ptr Hptr) as (def' & Hdef' & Hn'' & Hown' & Hi').
           exists def'. repeat split; [done..|].
           rewrite lookup_insert_ne; [done|]. intros Heq. congruence.
    + rewrite list_lookup_insert_ne in Hx by done. by apply Hwf.
  - by eapply registry_wf_same; [| |exact Hwf].
  - by eapply registry_wf_same; [| |exact Hwf].
Qed.

(** X3.  [addDynamicType] files a definition in both tables of the dialect
    or in neither, so after any calls of the functions of this file on a
    context whose tables agree (the empty context is one) the tables of
    every dialect still agree: a name found in the table by name leads to
    a definition of this dialect with that name whose identifier leads to
    it in the table by identifier, and the other way round. *)
Theorem registry_stays_wf (ctx ctx' : MLIRContext) (this : nat) (self : Dialect) :
  registry_wf ctx →
  steps ctx ctx' →
  dialects ctx' !! this = Some self →
  (∀ id ptr, dynTypes self !! id = Some ptr →
     ∃ def, typeDefs ctx' !! ptr = Some def ∧ typeID def = id ∧ dialect def = this ∧
            nameToDynTypes self !! name def = Some ptr) ∧
  (∀ n ptr, nameToDynTypes self !! n = Some ptr →
     ∃ def, typeDefs ctx' !! ptr = Some def ∧ name def = n ∧ dialect def = this ∧
            dynTypes self !! typeID def = Some ptr).
Proof.
  intros Hinv Hsteps.
  by apply (steps_invariant registry_wf effect_registry_wf ctx ctx' Hinv Hsteps).
Qed.


(** ** The storages of the arena *)

Lemma getWithTypeID_miss (ctx : MLIRContext) id key :
  uniquerLookup ctx id key = None →
  TypeUniquer_getWithTypeID ctx id key
  = (length (arena ctx),
     set_uniquer ctx (<[id := uniquerTable ctx id ++ [length (arena ctx)]]> (typeUniquer ctx))
       (arena ctx ++ [DynamicTypeStorage_construct key])).
Proof. unfold TypeUniquer_getWithTypeID. by intros ->. Qed.

Lemma effect_extends (ctx ctx' : MLIRContext) : effect ctx ctx' → extends ctx ctx'.
Proof.
  intros [|name id|def Hd Hname Hid| |this type self def Hself Hdef Hown Hfid Hfname|op
         |typeDef def params Hdef Hmiss].
  - apply extends_refl.
  - by apply extends_same_uniquer.
  - apply extends_same_uniquer; cbn; [by apply prefix_app_r|done..].
  - by apply extends_same_uniquer.
  - apply extends_same_uniquer; cbn; [done..|].
    intros id. unfold uniquerTable. cbn.
    destruct (decide (typeID def = id)) as [->|Hne].
    + by rewrite lookup_insert_eq.
    + by rewrite lookup_insert_ne.
  - by apply extends_same_uniquer.
  - apply (DynamicType_get_extends ctx _ typeDef params (Some (length (arena ctx)))).
    unfold DynamicType_get. rewrite (deref_Some _ _ _ Hdef). cbn.
    by rewrite (getWithTypeID_miss _ _ _ Hmiss).
Qed.

(** What an effect does to the arena: nothing, or one storage more, which
    is the instance held for its key. *)
Lemma effect_arena (ctx ctx' : MLIRContext) :
  effect ctx ctx' →
  arena ctx' = arena ctx ∨
  ∃ typeDef params,
    arena ctx' = arena ctx ++ [DynamicTypeStorage_construct (typeDef, params)] ∧
    cached ctx' typeDef params = Some (length (arena ctx)).
Proof.
  intros [|name id|def Hd Hname Hid| |this type self def Hself Hdef Hown Hfid Hfname|op
         |typeDef def params Hdef Hmiss]; try by left.
  right. exists typeDef, params. split; [done|].
  unfold cached. cbn. rewrite Hdef.
  apply (getWithTypeID_held ctx _ (typeID def) (typeDef, params)).
  by apply getWithTypeID_miss.
Qed.

(** Every storage of the arena is the instance held for its own key. *)
Definition uniquer_wf (ctx : MLIRContext) : Prop :=
  ∀ ptr s, arena ctx !! ptr = Some s → cached ctx (typeDef s) (params s) = Some ptr.

Lemma uniquer_wf_empty : uniquer_wf emptyContext.
Proof. intros ptr s. cbn. by rewrite lookup_nil. Qed.

Lemma effect_uniquer_wf (ctx ctx' : MLIRContext) :
  uniquer_wf ctx → effect ctx ctx' → uniquer_wf ctx'.
Proof.
  intros Hwf Heff ptr s Hs.
  destruct (effect_extends _ _ Heff) as (_ & _ & Hc).
  destruct (effect_arena _ _ Heff) as [Ha|(typeDef & params & Ha & Hheld)];
    rewrite Ha in Hs.
  - by apply Hc, Hwf.
  - apply lookup_app_Some in Hs as [Hs|[Hge Hs]].
    + by apply Hc, Hwf.
    + apply list_lookup_singleton_Some in Hs as [Hptr <-]. cbn.
      assert (ptr = length (arena ctx)) as -> by lia.
      done.
Qed.

(** X4.  After any calls of the functions of this file on a context in
    which every storage is the instance held for its key (the empty
    context is one), the arena holds one storage for each key it holds:
    two pointers to storages with the same definition and the same
    parameters are the same pointer, and [DynamicType::get] for the key of
    a storage returns that storage and leaves the context as it is. *)
Theorem one_storage_per_key (ctx ctx' : MLIRContext) (p q : nat)
    (s : DynamicTypeStorage) :
  uniquer_wf ctx →
  steps ctx ctx' →
  arena ctx' !! p = Some s →
  arena ctx' !! q = Some s →
  p = q ∧ DynamicType_get ctx' (typeDef s) (params s) = Ok (Some p, ctx').
Proof.
  intros Hinv Hsteps Hp Hq.
  pose proof (steps_invariant uniquer_wf effect_uniquer_wf ctx ctx' Hinv Hsteps) as Hwf.
  pose proof (Hwf _ _ Hp) as Hcp. pose proof (Hwf _ _ Hq) as Hcq.
  split; [congruence|]. by apply DynamicType_get_hit.
Qed.

(** X5.  The instance [DynamicType::get] returns keeps what it was made
    from: after any later calls of the functions of this file,
    [getTypeDef] and [getParams] return the definition and the parameter
    list given to [get], and [get] for them returns the same instance
    again without changing the context. *)
Theorem DynamicType_get_accessors (ctx ctx1 ctx2 : MLIRContext) (D : nat)
    (P : list Attribute) (t : DynamicType) :
  DynamicType_get ctx D P = Ok (t, ctx1) →
  steps ctx1 ctx2 →
  getTypeDef ctx2 t = Ok D ∧
  getParams ctx2 t = Ok P ∧
  DynamicType_get ctx2 D P = Ok (t, ctx2).
Proof.
  intros Hget Hsteps.
  destruct (DynamicType_get_held _ _ _ _ _ Hget) as (q & -> & Hheld & Hs).
  destruct (steps_extends _ _ Hsteps) as (_ & Ha & Hc).
  pose proof (prefix_lookup_Some _ _ _ _ Hs Ha) as Hs2.
  unfold getTypeDef, getParams, getImpl.
  rewrite (deref_Some _ _ _ Hs2). cbn.
  split; [done|]. split; [done|]. by apply DynamicType_get_hit, Hc.
Qed.


(** ** Construction of a type definition *)

(** X1.  Both overloads of [DynamicTypeDefinition::get] build the same
    definition, the first with the default parser and printer.  For a
    dialect of the context, they stop at the assertion on the name exactly
    when the name contains ['.'], and otherwise return a new definition
    that holds the name as given, the dialect, the hooks and the identifier
    just allocated; the definitions, dialects and storages there were are
    left as they are, and the new definition is in no table of a dialect
    yet. *)
Theorem DynamicTypeDefinition_get_checks_name (ctx : MLIRContext) (dialect : nat)
    (nameRef : string) (verifier : VerifierFn) (parser : ParserFn) (printer : PrinterFn) :
  is_Some (dialects ctx !! dialect) →
  DynamicTypeDefinition_get ctx dialect nameRef verifier
  = DynamicTypeDefinition_get_custom ctx dialect nameRef verifier
      defaultParser defaultPrinter ∧
  (contains nameRef "."%char = true →
   DynamicTypeDefinition_get_custom ctx dialect nameRef verifier parser printer
   = AssertionFailure "name should not be prefixed by the dialect name") ∧
  (contains nameRef "."%char = false →
   ∃ ctx',
     DynamicTypeDefinition_get_custom ctx dialect nameRef verifier parser printer
     = Ok (length (typeDefs ctx), ctx') ∧
     typeDefs ctx'
     = typeDefs ctx ++ [mkDynamicTypeDefinition nameRef dialect verifier parser printer
                          (nextTypeID ctx)] ∧
     nextTypeID ctx' = S (nextTypeID ctx) ∧
     dialects ctx' = dialects ctx ∧
     arena ctx' = arena ctx ∧
     typeUniquer ctx' = typeUniquer ctx).
Proof.
  intros [self Hself]. split; [reflexivity|].
  unfold DynamicTypeDefinition_get_custom, DynamicTypeDefinition_ctor.
  rewrite (deref_Some _ _ _ Hself). cbn. split.
  - by intros ->.
  - intros ->. cbn. eexists. by repeat split.
Qed.

(** ** Registrations, one after the other *)

(** What a call keeps of the tables of the dialects: their entries. *)
Definition keeps_registry (ctx ctx' : MLIRContext) : Prop :=
  typeDefs ctx `prefix_of` typeDefs ctx' ∧
  ∀ this self, dialects ctx !! this = Some self →
    ∃ self', dialects ctx' !! this = Some self' ∧
      (∀ id ptr, dynTypes self !! id = Some ptr → dynTypes self' !! id = Some ptr) ∧
      (∀ n ptr, nameToDynTypes self !! n = Some ptr → nameToDynTypes self' !! n = Some ptr).

Lemma keeps_registry_same (ctx ctx' : MLIRContext) :
  typeDefs ctx `prefix_of` typeDefs ctx' →
  dialects ctx `prefix_of` dialects ctx' →
  keeps_registry ctx ctx'.
Proof.
  intros Ht Hd. split; [done|]. intros this self Hself.
  exists self. split; [by eapply prefix_lookup_Some|done].
Qed.

Lemma effect_keeps_registry (ctx ctx' : MLIRContext) :
  effect ctx ctx' → keeps_registry ctx ctx'.
Proof.
  intros [|name id|def Hd Hname Hid| |this type self def Hself Hdef Hown Hfid Hfname|op
         |typeDef def params Hdef Hmiss];
    try (apply keeps_registry_same; cbn; done || by apply prefix_app_r).
  split; [done|]. intros d x Hx. cbn.
  destruct (decide (d = this)) as [->|Hne].
  - exists (registered_dialect self def type).
    rewrite list_lookup_insert_eq by (by eapply lookup_lt_Some).
    rewrite Hself in Hx. injection Hx as <-. cbn. split; [done|]. split.
    + intros id ptr Hptr. rewrite lookup_insert_ne; [done|]. congruence.
    + intros n ptr Hptr. rewrite lookup_insert_ne; [done|]. congruence.
  - exists x. by rewrite list_lookup_insert_ne.
Qed.

Lemma keeps_registry_trans (ctx1 ctx2 ctx3 : MLIRContext) :
  keeps_registry ctx1 ctx2 → keeps_registry ctx2 ctx3 → keeps_registry ctx1 ctx3.
Proof.
  intros [Ht Hk] [Ht' Hk']. split; [by etrans|].
  intros this self Hself.
  destruct (Hk _ _ Hself) as (self2 & Hself2 & Hid & Hn).
  destruct (Hk' _ _ Hself2) as (self3 & Hself3 & Hid' & Hn').
  exists self3. split; [done|]. split; eauto.
Qed.

Lemma steps_keep_registry (ctx ctx' : MLIRContext) :
  steps ctx ctx' → keeps_registry ctx ctx'.
Proof.
  induction 1 as [ctx|ctx1 ctx2 ctx3 Hstep _ IH].
  - by apply keeps_registry_same.
  - eapply keeps_registry_trans; [|exact IH]. by apply effect_keeps_registry, step_effect.
Qed.

(** The registered definition is in both tables. *)
Lemma addDynamicType_registered (ctx ctx' : MLIRContext) this type :
  addDynamicType ctx this type = Ok ctx' →
  ∃ def self',
    typeDefs ctx !! type = Some def ∧ typeDefs ctx' = typeDefs ctx ∧
    dialect def = this ∧
    dialects ctx' !! this = Some self' ∧
    dynTypes self' !! typeID def = Some type ∧
    nameToDynTypes self' !! name def = Some type ∧
    registeredTypes ctx' !! typeID def
    = Some (mkAbstractType this [IsDynamicTypeInterface] (typeID def)).
Proof.
  intros H. apply addDynamicType_Ok in H
    as (self & def & Hself & Hdef & Hown & Hid & Hname & ->).
  exists def, (registered_dialect self def type). cbn.
  split; [done|]. split; [done|]. split; [done|]. split.
  { apply list_lookup_insert_eq. by eapply lookup_lt_Some. }
  rewrite !lookup_insert_eq. by rewrite Hown.
Qed.

(** X6.  A registration is never undone and never repeated.  After
    [addDynamicType] has registered a definition, and after any later
    calls of the functions of this file, the dialect still finds the
    definition under its name ([lookupTypeDefinition]); registering the
    same definition again stops at the assertion on the identifier; and
    registering any definition with the same name stops at an assertion. *)
Theorem addDynamicType_once (ctx ctx1 ctx2 : MLIRContext) (this type : nat)
    (def : DynamicTypeDefinition) :
  typeDefs ctx !! type = Some def →
  addDynamicType ctx this type = Ok ctx1 →
  steps ctx1 ctx2 →
  (∃ self2, dialects ctx2 !! this = Some self2 ∧
            lookupTypeDefinition self2 (name def) = Some type) ∧
  addDynamicType ctx2 this type = AssertionFailure "generated TypeID was not unique" ∧
  (∀ type' def', typeDefs ctx2 !! type' = Some def' → name def' = name def →
     is_assertion_failure (addDynamicType ctx2 this type')).
Proof.
  intros Hdef Hreg Hsteps.
  destruct (addDynamicType_registered _ _ _ _ Hreg)
    as (def0 & self1 & Hdef0 & Ht1 & Hown & Hself1 & Hid1 & Hname1 & _).
  rewrite Hdef in Hdef0. injection Hdef0 as <-.
  destruct (steps_keep_registry _ _ Hsteps) as [Ht2 Hk].
  destruct (Hk _ _ Hself1) as (self2 & Hself2 & Hid2 & Hname2).
  apply Hid2 in Hid1. apply Hname2 in Hname1.
  assert (Hdef2 : typeDefs ctx2 !! type = Some def).
  { eapply prefix_lookup_Some; [|exact Ht2]. by rewrite Ht1. }
  split; [by exists self2|]. split.
  - rewrite (addDynamicType_cases _ _ _ _ _ Hself2 Hdef2).
    rewrite (bool_decide_eq_true_2 _ Hown). cbn.
    rewrite bool_decide_eq_false_2; [done|]. by rewrite Hid1.
  - intros type' def' Hdef' Heq.
    rewrite (addDynamicType_cases _ _ _ _ _ Hself2 Hdef').
    unfold is_assertion_failure.
    destruct (bool_decide (dialect def' = this)); cbn; [|by eauto].
    destruct (bool_decide (dynTypes self2 !! typeID def' = None)); cbn; [|by eauto].
    rewrite bool_decide_eq_false_2; [by eauto|]. by rewrite Heq, Hname1.
Qed.

(** X7.  In a context reached from one in which the identifiers of the
    definitions are distinct and the tables of the dialects agree (the
    empty context is one), the assertion of [addDynamicType] on the
    identifier ("generated TypeID was not unique") can only fail for a
    definition that is registered in this dialect already: no other
    definition has its identifier. *)
Theorem addDynamicType_TypeID_collision (ctx ctx' : MLIRContext) (this type : nat) :
  typeIDs_unique ctx →
  registry_wf ctx →
  steps ctx ctx' →
  addDynamicType ctx' this type = AssertionFailure "generated TypeID was not unique" →
  ∃ self def,
    dialects ctx' !! this = Some self ∧
    typeDefs ctx' !! type = Some def ∧
    dynTypes self !! typeID def = Some type ∧
    nameToDynTypes self !! name def = Some type.
Proof.
  intros Hids Hreg Hsteps Hfail.
  pose proof (steps_invariant _ effect_typeIDs_unique _ _ Hids Hsteps) as [_ Hdist].
  pose proof (steps_invariant _ effect_registry_wf _ _ Hreg Hsteps) as Hwf.
  assert (∃ self def, dialects ctx' !! this = Some self ∧ typeDefs ctx' !! type = Some def)
    as (self & def & Hself & Hdef).
  { unfold addDynamicType, deref in Hfail.
    destruct (dialects ctx' !! this) as [self|]; [|discriminate].
    destruct (typeDefs ctx' !! type) as [def|]; [|discriminate]. eauto. }
  exists self, def. split; [done|]. split; [done|].
  rewrite (addDynamicType_cases _ _ _ _ _ Hself Hdef) in Hfail.
  destruct (bool_decide (dialect def = this)); [|discriminate]. cbn in Hfail.
  destruct (dynTypes self !! typeID def) as [ptr|] eqn:Hptr.
  2: { rewrite bool_decide_eq_true_2 in Hfail by done. cbn in Hfail.
       destruct (bool_decide _); discriminate. }
  destruct (Hwf _ _ Hself) as [Hid _].
  destruct (Hid _ _ Hptr) as (def' & Hdef' & Heq & _ & Hname').
  assert (ptr = type) as -> by (by eapply Hdist).
  rewrite Hdef in Hdef'. injection Hdef' as <-. done.
Qed.


(** ** Parsing an instance *)

Lemma foldl_emitError (p : AsmParser) (msgs : list string) :
  foldl (λ (s : AsmParser) (msg : string), emitError s (getCurrentLocation s) msg) p msgs
  = mkAsmParser (tokens p) (diagnostics p ++ (mkDiagnostic (tokens p) <$> msgs)).
Proof.
  revert p. induction msgs as [|msg msgs IH]; intros [ts diags]; cbn.
  - by rewrite app_nil_r.
  - rewrite IH. cbn. by rewrite <- app_assoc.
Qed.

(** The parser after the verifier has reported [msgs] through the
    [emitError] of [DynamicType::parse]. *)
Definition reported (p : AsmParser) (msgs : list string) : AsmParser :=
  mkAsmParser (tokens p) (diagnostics p ++ (mkDiagnostic (tokens p) <$> msgs)).

(** X8.  [DynamicType::parse] is its parse hook, then the verifier, then
    [get].  A hook that fails gives failure and leaves the result variable
    and the context as they were.  After a hook that succeeds the errors
    of the verifier are reported at the position the hook stopped at, the
    input is moved no further, and the result is success: with the
    instance of [get] for the parsed parameters if the verifier accepts
    them, with the null instance and the context unchanged if it rejects
    them. *)
Theorem DynamicType_parse_cases (ctx : MLIRContext) (p p1 : AsmParser) (D : nat)
    (def : DynamicTypeDefinition) (parsedType : DynamicType) (r : LogicalResult)
    (ps : list Attribute) :
  typeDefs ctx !! D = Some def →
  parser def p [] = Some (r, p1, ps) →
  (r = failure →
   DynamicType_parse ctx p D parsedType = Ok (failure, p1, parsedType, ctx)) ∧
  (r = success → failed (verifier def ps).1 = true →
   DynamicType_parse ctx p D parsedType
   = Ok (success, reported p1 (verifier def ps).2, None, ctx)) ∧
  (r = success → failed (verifier def ps).1 = false →
   ∃ ptr ctx',
     DynamicType_get ctx D ps = Ok (Some ptr, ctx') ∧
     DynamicType_parse ctx p D parsedType
     = Ok (success, reported p1 (verifier def ps).2, Some ptr, ctx')).
Proof.
  intros Hdef Hhook. unfold DynamicType_parse.
  rewrite (deref_Some _ _ _ Hdef). cbn. rewrite Hhook.
  split; [by intros ->|]. split.
  - intros -> Hrej. cbn.
    erewrite DynamicType_getChecked_rejected by done. cbn.
    unfold verify. destruct (verifier def ps) as [v msgs]. cbn.
    by rewrite foldl_emitError.
  - intros -> Hok. cbn.
    destruct (DynamicType_get_returns ctx D ps) as (ptr & ctx' & Hget); [by eauto|].
    exists ptr, ctx'. split; [done|].
    unfold DynamicType_getChecked, verify.
    rewrite (deref_Some _ _ _ Hdef). cbn.
    destruct (verifier def ps) as [v msgs]. cbn in *. rewrite Hok, Hget. cbn.
    by rewrite foldl_emitError.
Qed.

(** X9.  [parseOptionalDynamicType] answers in three ways.  For a name
    that is not in the table of the dialect it has no result, and leaves
    the parser, the result type and the context as they were.  For a name
    of the table it has the result of [DynamicType::parse] for the
    definition of that name: on failure the result type is left as it was,
    on success it is set to the parsed instance. *)
Theorem parseOptionalDynamicType_cases (ctx : MLIRContext) (this : nat) (self : Dialect)
    (typeName : string) (p : AsmParser) (resultType : DynamicType) :
  dialects ctx !! this = Some self →
  (nameToDynTypes self !! typeName = None →
   parseOptionalDynamicType ctx this typeName p resultType
   = Ok (None, p, resultType, ctx)) ∧
  (∀ typeDef p' t ctx',
     nameToDynTypes self !! typeName = Some typeDef →
     DynamicType_parse ctx p typeDef None = Ok (failure, p', t, ctx') →
     parseOptionalDynamicType ctx this typeName p resultType
     = Ok (Some failure, p', resultType, ctx) ∧ ctx' = ctx) ∧
  (∀ typeDef p' t ctx',
     nameToDynTypes self !! typeName = Some typeDef →
     DynamicType_parse ctx p typeDef None = Ok (success, p', t, ctx') →
     parseOptionalDynamicType ctx this typeName p resultType
     = Ok (Some success, p', t, ctx')).
Proof.
  intros Hself. unfold parseOptionalDynamicType, lookupTypeDefinition.
  rewrite (deref_Some _ _ _ Hself). cbn.
  split; [by intros ->|]. split.
  - intros typeDef p' t ctx' -> Hparse. rewrite Hparse. cbn.
    unfold DynamicType_parse in Hparse.
    apply bind_Ok in Hparse as (def & _ & Hparse).
    destruct (parser def p []) as [[[r1 p1] ps]|]; [|discriminate].
    destruct (failed r1) eqn:Hr.
    + by injection Hparse as <- <- <-.
    + apply bind_Ok in Hparse as ([[t1 p2] ctx1] & _ & Hparse). discriminate.
  - intros typeDef p' t ctx' -> Hparse. by rewrite Hparse.
Qed.


(** ** What the default parser touches *)

Lemma parseMoreParams_footprint (fuel : nat) (p p' : AsmParser)
    (acc acc' : list Attribute) (r : LogicalResult) :
  parseMoreParams fuel p acc = Some (r, p', acc') →
  (∃ ps, acc' = acc ++ ps) ∧
  (∃ n, tokens p' = drop n (tokens p)) ∧
  (r = success → diagnostics p' = diagnostics p) ∧
  (r = failure → ∃ msg, diagnostics p' = diagnostics p ++ [mkDiagnostic (tokens p') msg]).
Proof.
  revert p acc. induction fuel as [|fuel IH]; intros [ts diags] acc; [discriminate|].
  cbn [parseMoreParams]. destruct ts as [|tok ts].
  { cbn. intros [= <- <- <-]. cbn.
    split; [by exists []; rewrite app_nil_r|]. split; [by exists 0|].
    split; [done|]. by eauto. }
  destruct (decide (tok = Tok_greater)) as [->|Hgt].
  { cbn. intros [= <- <- <-]. cbn.
    split; [by exists []; rewrite app_nil_r|]. split; [by exists 1|].
    split; [done|]. done. }
  destruct (decide (tok = Tok_comma)) as [->|Hcomma].
  - cbn. unfold parseAttribute. cbn.
    destruct (parseAttributeTokens ts) as [[a n]|] eqn:Ha.
    + cbn. intros Hrun. apply IH in Hrun as ((ps & ->) & (m & Htok) & Hok & Hfail).
      cbn in *. split; [exists (a :: ps); by rewrite <- app_assoc|].
      split; [|done]. exists (S (n + m)). cbn. by rewrite Htok, drop_drop.
    + cbn. intros [= <- <- <-]. cbn.
      split; [by exists []; rewrite app_nil_r|]. split; [by exists 1|].
      split; [done|]. by eauto.
  - destruct tok; try congruence; cbn; intros [= <- <- <-]; cbn;
      (split; [by exists []; rewrite app_nil_r|]); (split; [by exists 0|]);
      (split; [done|by eauto]).
Qed.

Lemma defaultParser_footprint (p p' : AsmParser) (acc acc' : list Attribute)
    (r : LogicalResult) :
  defaultParser p acc = Some (r, p', acc') →
  (∃ ps, acc' = acc ++ ps) ∧
  (∃ n, tokens p' = drop n (tokens p) ∧
        (head (tokens p) = Some Tok_less → 0 < n)) ∧
  (r = success → diagnostics p' = diagnostics p) ∧
  (r = failure → ∃ msg, diagnostics p' = diagnostics p ++ [mkDiagnostic (tokens p') msg]).
Proof.
  destruct p as [ts diags]. unfold defaultParser.
  destruct ts as [|tok ts].
  { cbn. intros [= <- <- <-]. cbn.
    split; [by exists []; rewrite app_nil_r|]. split; [by exists 0|]. done. }
  destruct (decide (tok = Tok_less)) as [->|Hless].
  2: { destruct tok; try congruence; cbn; intros [= <- <- <-]; cbn;
         (split; [by exists []; rewrite app_nil_r|]); (split; [by exists 0|]); done. }
  cbn -[parseMoreParams]. destruct ts as [|tok ts].
  { cbn -[parseMoreParams]. unfold parseAttribute. cbn -[parseMoreParams].
    destruct (parseAttributeTokens []) as [[a n]|] eqn:Ha; cbn -[parseMoreParams].
    - intros Hrun. apply parseMoreParams_footprint in Hrun
        as ((ps & ->) & (m & Htok) & Hok & Hfail).
      cbn in *. split; [exists (a :: ps); by rewrite <- app_assoc|].
      split; [|done]. exists 1. split; [|lia]. cbn.
      by rewrite Htok, !drop_nil.
    - intros [= <- <- <-]. cbn.
      split; [by exists []; rewrite app_nil_r|]. split; [exists 1; split; [done|lia]|].
      split; [done|by eauto]. }
  destruct (decide (tok = Tok_greater)) as [->|Hgt].
  { cbn. intros [= <- <- <-]. cbn.
    split; [by exists []; rewrite app_nil_r|]. split; [exists 2; split; [done|lia]|]. done. }
  assert (parseOptionalGreater (consume (mkAsmParser (Tok_less :: tok :: ts) diags) (tok :: ts))
          = (failure, mkAsmParser (tok :: ts) diags)) as ->.
  { unfold parseOptionalGreater, consume. cbn. by destruct tok. }
  cbn -[parseMoreParams]. unfold parseAttribute. cbn -[parseMoreParams].
  destruct (parseAttributeTokens (tok :: ts)) as [[a n]|] eqn:Ha; cbn -[parseMoreParams].
  - intros Hrun. apply parseMoreParams_footprint in Hrun
      as ((ps & ->) & (m & Htok) & Hok & Hfail).
    cbn in *. split; [exists (a :: ps); by rewrite <- app_assoc|].
    split; [|done]. exists (S (n + m)). split; [|lia]. cbn.
    by rewrite Htok, drop_drop.
  - intros [= <- <- <-]. cbn.
    split; [by exists []; rewrite app_nil_r|]. split; [exists 1; split; [done|lia]|].
    split; [done|by eauto].
Qed.

(** X10.  The default parser always returns.  It only adds to the
    parameters it is given (on a failure they keep the attributes read
    before the error), it only moves forward in the input and does not
    move back after a failure, so that a ['<'] it has read stays read; on
    success it emits no error, and on failure exactly one, at the position
    it stopped at. *)
Theorem defaultParser_effects (p : AsmParser) (parsedParams : list Attribute) :
  ∃ r p' ps n,
    defaultParser p parsedParams = Some (r, p', parsedParams ++ ps) ∧
    tokens p' = drop n (tokens p) ∧
    (head (tokens p) = Some Tok_less → 0 < n) ∧
    (r = success → diagnostics p' = diagnostics p) ∧
    (r = failure →
     ∃ msg, diagnostics p' = diagnostics p ++ [mkDiagnostic (tokens p') msg]).
Proof.
  destruct (defaultParser_returns p parsedParams) as (r & p' & acc' & Hrun).
  destruct (defaultParser_footprint _ _ _ _ _ Hrun)
    as ((ps & ->) & (n & Htok & Hn) & Hok & Hfail).
  by exists r, p', ps, n.
Qed.


(** ** The default hooks in the middle of an input *)

Section RoundTripInContext.

Hypothesis parse_printAttribute : ∀ a rest,
  parseAttributeTokens (printAttribute a ++ rest) = Some (a, length (printAttribute a)).

Hypothesis printAttribute_head : ∀ a,
  ∃ tok text, printAttribute a = tok :: text ∧ tok ≠ Tok_greater.

(** X11.  What the default printer writes for a parameter list, followed by
    any further input, is read back by the default parser, which stops
    right after it, provided the list is not empty or the further input
    does not start with ['<'].  The proviso is needed: for the empty list
    the printer writes nothing, and a ['<'] that follows is taken by the
    parser as the start of a parameter list, whatever the outcome. *)
Theorem defaultParser_defaultPrinter_followed (ps : list Attribute) (rest : list Token)
    (diags : list Diagnostic) (parsedParams : list Attribute) :
  (ps ≠ [] ∨ head rest ≠ Some Tok_less →
   defaultParser (mkAsmParser (defaultPrinter [] ps ++ rest) diags) parsedParams
   = Some (success, mkAsmParser rest diags, parsedParams ++ ps)) ∧
  (∀ r p' acc',
     defaultParser (mkAsmParser (defaultPrinter [] [] ++ Tok_less :: rest) diags)
       parsedParams = Some (r, p', acc') →
     (length (tokens p') ≤ length rest)%nat).
Proof.
  split.
  - intros Hok. apply (defaultParser_defaultPrinter parse_printAttribute printAttribute_head).
    intros ->. by destruct Hok.
  - intros r p' acc' Hrun.
    apply defaultParser_footprint in Hrun as (_ & (n & Htok & Hn) & _).
    rewrite defaultPrinter_nil in Htok, Hn. cbn in Htok, Hn.
    specialize (Hn eq_refl). rewrite Htok.
    destruct n as [|n]; [lia|]. cbn. rewrite length_drop. lia.
Qed.

(** An instance that is held for accepted parameters is printed as its
    name and the text of the default printer, and parsed back from that
    text. *)
Lemma print_parse_held (ctx : MLIRContext) D def P q :
  typeDefs ctx !! D = Some def →
  parser def = defaultParser →
  printer def = defaultPrinter →
  failed (verifier def P).1 = false →
  arena ctx !! q = Some (DynamicTypeStorage_construct (D, P)) →
  cached ctx D P = Some q →
  DynamicType_print ctx (Some q) []
  = Ok (Tok_bare_identifier (name def) :: defaultPrinter [] P) ∧
  ∀ diags parsedType,
    ∃ p', DynamicType_parse ctx (mkAsmParser (defaultPrinter [] P) diags) D parsedType
          = Ok (success, p', Some q, ctx) ∧
          tokens p' = [].
Proof.
  intros Hdef Hparser Hprinter Hok Hs Hheld. split.
  - unfold DynamicType_print, getTypeDef, getParams, getImpl.
    rewrite (deref_Some _ _ _ Hs). cbn.
    rewrite (deref_Some _ _ _ Hdef). cbn.
    rewrite Hprinter. by rewrite defaultPrinter_app.
  - intros diags parsedType.
    assert (Hhook : parser def (mkAsmParser (defaultPrinter [] P) diags) []
                    = Some (success, mkAsmParser [] diags, P)).
    { rewrite Hparser.
      rewrite <- (app_nil_r (defaultPrinter [] P)).
      by rewrite (defaultParser_defaultPrinter parse_printAttribute printAttribute_head). }
    destruct (DynamicType_parse_accepted ctx _ D def parsedType _ _ Hdef Hhook Hok)
      as (ptr & p2 & ctx' & Hget2 & Htok & Hparse).
    rewrite (DynamicType_get_hit _ _ _ _ Hheld) in Hget2.
    injection Hget2 as <- <-. eauto.
Qed.

(** X12.  Through the dialect: once a definition with the default hooks is
    registered by [addDynamicType], an instance of it made by [get] with
    parameters its verifier accepts is printed by [DynamicType::print] as
    the name of the definition followed by its parameters, and
    [parseOptionalDynamicType], given that name and the rest of the text,
    finds the definition in the dialect and returns success with the same
    instance, reading all of the text and leaving the context as it is;
    whatever other calls of the functions of this file come in between. *)
Theorem registered_type_round_trip (ctx ctx1 ctx2 ctx3 ctx4 : MLIRContext)
    (this D : nat) (def : DynamicTypeDefinition) (P : list Attribute) (t : DynamicType) :
  typeDefs ctx !! D = Some def →
  parser def = defaultParser →
  printer def = defaultPrinter →
  failed (verifier def P).1 = false →
  addDynamicType ctx this D = Ok ctx1 →
  steps ctx1 ctx2 →
  DynamicType_get ctx2 D P = Ok (t, ctx3) →
  steps ctx3 ctx4 →
  ∃ text,
    DynamicType_print ctx4 t [] = Ok (Tok_bare_identifier (name def) :: text) ∧
    ∀ diags resultType,
      ∃ p', parseOptionalDynamicType ctx4 this (name def) (mkAsmParser text diags) resultType
            = Ok (Some success, p', t, ctx4) ∧
            tokens p' = [].
Proof.
  intros Hdef Hparser Hprinter Hok Hreg Hsteps12 Hget Hsteps34.
  destruct (addDynamicType_registered _ _ _ _ Hreg)
    as (def0 & self1 & Hdef0 & Ht1 & Hown & Hself1 & _ & Hname1 & _).
  rewrite Hdef in Hdef0. injection Hdef0 as <-.
  assert (Hsteps14 : steps ctx1 ctx4).
  { eapply rtc_trans; [exact Hsteps12|].
    eapply rtc_l; [by eapply step_DynamicType_get|exact Hsteps34]. }
  destruct (steps_keep_registry _ _ Hsteps14) as [Ht4 Hk].
  destruct (Hk _ _ Hself1) as (self4 & Hself4 & _ & Hname4).
  apply Hname4 in Hname1.
  assert (Hdef4 : typeDefs ctx4 !! D = Some def).
  { eapply prefix_lookup_Some; [|exact Ht4]. by rewrite Ht1. }
  destruct (DynamicType_get_held _ _ _ _ _ Hget) as (q & -> & Hheld & Hs).
  destruct (steps_extends _ _ Hsteps34) as (_ & Ha & Hc).
  pose proof (prefix_lookup_Some _ _ _ _ Hs Ha) as Hs4.
  apply Hc in Hheld.
  destruct (print_parse_held ctx4 D def P q Hdef4 Hparser Hprinter Hok Hs4 Hheld)
    as [Hprint Hparse].
  exists (defaultPrinter [] P). split; [done|].
  intros diags resultType. destruct (Hparse diags None) as (p' & Hp' & Htok).
  exists p'. split; [|done].
  unfold parseOptionalDynamicType, lookupTypeDefinition.
  rewrite (deref_Some _ _ _ Hself4). cbn. rewrite Hname1, Hp'. done.
Qed.

End RoundTripInContext.

(** ** Registration of a dynamic operation *)

(** X13.  [addDynamicOp] stops at its assertion exactly when the dialect of
    the definition is not the dialect it is registered into.  Otherwise it
    puts the operation in the table of operations under the name of the
    definition, with the identifier, the dialect and the three hooks of
    the definition, a fold hook that always fails, no canonicalization
    pattern, no interface and no trait; the other operations of the table,
    the dialects, the type definitions and the uniquer are left as they
    are. *)
Theorem addDynamicOp_registers (ctx : MLIRContext) (this : nat) (self : Dialect)
    (def : DynamicOpDefinition) :
  dialects ctx !! this = Some self →
  (op_dialect def ≠ this →
   addDynamicOp ctx this def
   = AssertionFailure "trying to register a dynamic op in the wrong dialect") ∧
  (op_dialect def = this →
   ∃ ctx' op,
     addDynamicOp ctx this def = Ok ctx' ∧
     registeredOperations ctx' !! op_name def = Some op ∧
     ao_name op = op_name def ∧ ao_dialect op = this ∧ ao_typeID op = op_typeID def ∧
     ao_parseAssembly op = parseFn def ∧
     ao_printAssembly op = printFn def ∧
     ao_verifyInvariants op = verifyFn def ∧
     (∀ o operands, ao_foldHook op o operands = failure) ∧
     (∀ patterns, ao_canonicalizationPatterns op patterns = patterns) ∧
     ao_interfaceMap op = [] ∧
     (∀ traitId, ao_hasTrait op traitId = false) ∧
     (∀ n, n ≠ op_name def →
        registeredOperations ctx' !! n = registeredOperations ctx !! n) ∧
     dialects ctx' = dialects ctx ∧ typeDefs ctx' = typeDefs ctx ∧
     typeUniquer ctx' = typeUniquer ctx ∧ arena ctx' = arena ctx).
Proof.
  intros Hself. unfold addDynamicOp.
  rewrite (deref_Some _ _ _ Hself). cbn. split.
  - intros Hne. by rewrite bool_decide_eq_false_2.
  - intros Heq. rewrite bool_decide_eq_true_2 by done. cbn.
    eexists _, _. split; [reflexivity|]. cbn.
    rewrite lookup_insert_eq. split; [reflexivity|]. cbn.
    repeat split; try done.
    intros n Hn. by rewrite lookup_insert_ne.
Qed.

(** X14.  An operation made by the verifier-only [DynamicOpDefinition::get]
    for a dialect can always be registered in that dialect, and is then
    found in the table of operations under the namespace of the dialect,
    ['.'] and its name, with the verifier given, a parser that fails with
    the error ["dynamic operation do not define any parser function"] and
    the generic printer. *)
Theorem DynamicOpDefinition_get_then_add (ctx ctx1 : MLIRContext) (name : string)
    (this : nat) (self : Dialect) (verify : Operation → LogicalResult)
    (def : DynamicOpDefinition) :
  dialects ctx !! this = Some self →
  DynamicOpDefinition_get ctx name this verify = Ok (def, ctx1) →
  ∃ ctx2 op,
    addDynamicOp ctx1 this def = Ok ctx2 ∧
    registeredOperations ctx2 !! (getNamespace self +:+ "." +:+ name) = Some op ∧
    ao_typeID op = nextTypeID ctx ∧
    ao_verifyInvariants op = verify ∧
    (∀ p st,
       ao_parseAssembly op p st
       = (failure,
          emitError p (tokens p) "dynamic operation do not define any parser function",
          st)) ∧
    (∀ o os, ao_printAssembly op o os = printGenericOp o os).
Proof.
  intros Hself Hget. unfold DynamicOpDefinition_get, DynamicOpDefinition_ctor in Hget.
  rewrite (deref_Some _ _ _ Hself) in Hget. cbn in Hget. injection Hget as <- <-.
  unfold addDynamicOp. cbn. rewrite (deref_Some _ _ _ Hself). cbn.
  rewrite bool_decide_eq_true_2 by done. cbn.
  eexists _, _. split; [reflexivity|]. cbn.
  rewrite lookup_insert_eq. by repeat split.
Qed.


(** ** The name an instance is printed with *)

(** No type definition of the context has a ['.'] in its name. *)
Definition names_unqualified (ctx : MLIRContext) : Prop :=
  ∀ i d, typeDefs ctx !! i = Some d → contains (name d) "."%char = false.

Lemma names_unqualified_nil (ctx : MLIRContext) :
  typeDefs ctx = [] → names_unqualified ctx.
Proof. intros Hnil i d. rewrite Hnil. by rewrite lookup_nil. Qed.

Lemma names_unqualified_empty : names_unqualified emptyContext.
Proof. by apply names_unqualified_nil. Qed.

(** The constructors check the name, so every effect keeps the names
    unqualified. *)
Lemma effect_names_unqualified (ctx ctx' : MLIRContext) :
  names_unqualified ctx → effect ctx ctx' → names_unqualified ctx'.
Proof.
  intros Hinv [|name id|def Hd Hname Hid| |this type self def ? ? ? ? ?|op
              |typeDef def params ? ?]; try done.
  intros i d. cbn. intros Hi.
  apply lookup_app_Some in Hi as [Hi|[_ Hi]]; [by eapply Hinv|].
  by apply list_lookup_singleton_Some in Hi as [_ <-].
Qed.

(** A name qualified by a namespace has the separator in it. *)
Lemma contains_qualified (ns n : string) :
  contains (ns +:+ "." +:+ n) "."%char = true.
Proof.
  induction ns as [|c ns IH]; [reflexivity|].
  change (String c ns +:+ "." +:+ n) with (String c (ns +:+ "." +:+ n)).
  cbn [contains]. destruct (decide (c = "."%char)); [reflexivity|exact IH].
Qed.

(** C9 (amended).  In a context reached, by any calls of the functions of
    this file, from one in which the names of the type definitions are
    unqualified and every storage is the instance held for its key (the
    empty context is one), every dynamic type instance has its definition,
    and [DynamicType::print] first writes the name of that definition as
    the definition stores it and then calls the print hook of the
    definition on the parameter list of the instance.  The name written is
    unqualified: it has no ['.'] in it, so it is not a namespace, the
    separator and a name, whatever the namespace. *)
Theorem DynamicType_print_name_then_hook (ctx0 ctx : MLIRContext) (t : DynamicType)
    (os : OStream) (impl : DynamicTypeStorage) :
  names_unqualified ctx0 →
  uniquer_wf ctx0 →
  steps ctx0 ctx →
  getImpl ctx t = Ok impl →
  ∃ def,
    typeDefs ctx !! typeDef impl = Some def ∧
    DynamicType_print ctx t os
    = Ok (printer def (os ++ [Tok_bare_identifier (name def)]) (params impl)) ∧
    contains (name def) "."%char = false ∧
    ∀ ns n, name def ≠ ns +:+ "." +:+ n.
Proof.
  intros Hnames Hwf Hsteps Himpl.
  pose proof (steps_invariant _ effect_names_unqualified _ _ Hnames Hsteps) as Hnames'.
  pose proof (steps_invariant _ effect_uniquer_wf _ _ Hwf Hsteps) as Hwf'.
  assert (∃ def, typeDefs ctx !! typeDef impl = Some def) as [def Hdef].
  { destruct t as [ptr|]; [|discriminate]. cbn in Himpl. apply deref_Ok in Himpl.
    apply Hwf' in Himpl. unfold cached in Himpl.
    destruct (typeDefs ctx !! typeDef impl) as [def|]; [by eauto|discriminate]. }
  exists def. split; [done|]. split; [by apply DynamicType_print_unfold|].
  pose proof (Hnames' _ _ Hdef) as Hname. split; [done|].
  intros ns n Heq. rewrite Heq, contains_qualified in Hname. discriminate.
Qed.

(** ** The text of an instance *)

(** X15.  With the default printer, [DynamicType::print] only adds to the
    output: the name of the definition alone for an instance without
    parameters, and for an instance with parameters the name, ['<'], the
    parameters in their order with one comma between two of them, and
    ['>']. *)
Theorem DynamicType_print_default_text (ctx : MLIRContext) (t : DynamicType)
    (os : OStream) (impl : DynamicTypeStorage) (def : DynamicTypeDefinition) :
  getImpl ctx t = Ok impl →
  typeDefs ctx !! typeDef impl = Some def →
  printer def = defaultPrinter →
  DynamicType_print ctx t os
  = Ok (os ++ Tok_bare_identifier (name def) ::
        match params impl with
        | [] => []
        | a :: rest => Tok_less :: printAttribute a ++ printMoreParams rest
        end).
Proof.
  intros Himpl Hdef Hprinter. unfold DynamicType_print, getTypeDef, getParams.
  rewrite Himpl. cbn. rewrite (deref_Some _ _ _ Hdef). cbn. rewrite Hprinter.
  f_equal. destruct (params impl) as [|a rest].
  - by rewrite defaultPrinter_nil.
  - rewrite defaultPrinter_cons. by rewrite <- app_assoc.
Qed.


End ExtensibleDialect.

(** * A concrete instance

    Integer attributes, each written as one integer token; operations are
    known by their names, and the generic form of an operation is its name
    as one token. *)

Module Example.

Definition parseInteger (ts : list Token) : option (Z * nat) :=
  match ts with
  | Tok_integer z :: _ => Some (z, 1)
  | _ => None
  end.

Definition printInteger (z : Z) : list Token := [Tok_integer z].

Definition printOpName (op : string) (os : OStream) : OStream := os ++ [Tok_other op].

Abbreviation Ctx := (@MLIRContext Z string unit).

(** The value of a call that returns; [d] otherwise. *)
Definition value {A} (d : A) (o : Outcome A) : A :=
  match o with Ok a => a | _ => d end.

(** A verifier that accepts every parameter list, one that accepts none,
    and one that wants at least one parameter. *)
Definition acceptAll : @VerifierFn Z := λ _, (success, []).
Definition rejectAll : @VerifierFn Z := λ _, (failure, ["no parameters are valid"]).
Definition nonEmpty : @VerifierFn Z := λ ps,
  match ps with
  | [] => (failure, ["expected at least one parameter"])
  | _ => (success, [])
  end.

Definition verifyOp : string → LogicalResult := λ _, success.

(** The context after the dialect [test] was created, at pointer [0]. *)
Definition ctx_test : Ctx := (new_ExtensibleDialect emptyContext "test" 0).2.

(** Three type definitions in [test], at pointers [0], [1] and [2]. *)
Definition ctx_mytype : Ctx :=
  (value (0, ctx_test)
     (DynamicTypeDefinition_get parseInteger printInteger ctx_test 0 "mytype" acceptAll)).2.

Definition ctx_strict : Ctx :=
  (value (0, ctx_mytype)
     (DynamicTypeDefinition_get parseInteger printInteger ctx_mytype 0 "strict" rejectAll)).2.

Definition ctx_defs : Ctx :=
  (value (0, ctx_strict)
     (DynamicTypeDefinition_get parseInteger printInteger ctx_strict 0 "some" nonEmpty)).2.

(** [ctx_defs] after the three definitions were registered in [test]. *)
Definition ctx_registered : Ctx :=
  value ctx_defs
    (c ← addDynamicType ctx_defs 0 0; c ← addDynamicType c 0 1; addDynamicType c 0 2).

Abbreviation steps_here := (steps parseInteger printInteger printOpName).

(** What the sink of a caller of [getChecked] does with a message: keep it. *)
Definition keep (msg : string) (sink : list string) : list string := sink ++ [msg].

Lemma parseInteger_printInteger (a : Z) (rest : list Token) :
  parseInteger (printInteger a ++ rest) = Some (a, length (printInteger a)).
Proof. reflexivity. Qed.

Lemma printInteger_head (a : Z) :
  ∃ tok text, printInteger a = tok :: text ∧ tok ≠ Tok_greater.
Proof. by exists (Tok_integer a), []. Qed.

Lemma steps_ctx_defs : steps_here ctx_test ctx_defs.
Proof.
  eapply rtc_l; [eapply (step_DynamicTypeDefinition_get _ _ _ ctx_test 0 "mytype" acceptAll);
                 reflexivity|].
  eapply rtc_l; [eapply (step_DynamicTypeDefinition_get _ _ _ ctx_mytype 0 "strict" rejectAll);
                 reflexivity|].
  eapply rtc_l; [eapply (step_DynamicTypeDefinition_get _ _ _ ctx_strict 0 "some" nonEmpty);
                 reflexivity|].
  apply rtc_refl.
Qed.

Lemma DynamicType_get_same_instance_iff_witness :
  ∃ t1 c1 t2 c2,
    DynamicType_get ctx_defs 0 [1%Z] = Ok (t1, c1) ∧
    DynamicType_get c1 1 [1%Z] = Ok (t2, c2) ∧
    (t1 = t2 ↔ 0 = 1 ∧ [1%Z] = [1%Z]).
Proof.
  eexists _, _, _, _. split; [reflexivity|]. split; [reflexivity|].
  eapply (DynamicType_get_same_instance_iff parseInteger printInteger printOpName
            ctx_defs _ _ _ 0 1 [1%Z] [1%Z]);
    [reflexivity|apply rtc_refl|reflexivity].
Defined.

Lemma DynamicType_getChecked_gating_witness :
  (∃ sink1, DynamicType_getChecked keep [] ctx_defs 2 [] = Ok (None, sink1, ctx_defs)) ∧
  (∃ ptr sink3 ctx3,
     DynamicType_getChecked keep [] ctx_defs 2 [5%Z] = Ok (Some ptr, sink3, ctx3) ∧
     DynamicType_get ctx_defs 2 [5%Z] = Ok (Some ptr, ctx3) ∧
     cached ctx3 2 [5%Z] = Some ptr).
Proof.
  eapply (DynamicType_getChecked_gating parseInteger printInteger printOpName
            keep [] [] ctx_defs ctx_defs 2 _ [] [5%Z]);
    [reflexivity|reflexivity|reflexivity|apply rtc_refl].
Defined.

Lemma defaultParser_spec_witness :
  defaultParser parseInteger (mkAsmParser [Tok_comma] []) []
  = Some (success, mkAsmParser [Tok_comma] [], []) ∧
  defaultParser parseInteger (mkAsmParser [Tok_less; Tok_greater; Tok_comma] []) []
  = Some (success, mkAsmParser [Tok_comma] [], []) ∧
  ((∃ ps rest,
      attr_list parseInteger [Tok_integer 1; Tok_comma; Tok_integer 2; Tok_greater] ps rest ∧
      ps ≠ [] ∧
      defaultParser parseInteger
        (mkAsmParser [Tok_less; Tok_integer 1; Tok_comma; Tok_integer 2; Tok_greater] []) []
      = Some (success,
              consume (mkAsmParser [Tok_less; Tok_integer 1; Tok_comma; Tok_integer 2;
                                    Tok_greater] []) rest,
              [] ++ ps))
   ∨
   ((¬ ∃ ps rest,
       attr_list parseInteger [Tok_integer 1; Tok_comma; Tok_integer 2; Tok_greater] ps rest) ∧
    ∃ p' ps loc msg,
      defaultParser parseInteger
        (mkAsmParser [Tok_less; Tok_integer 1; Tok_comma; Tok_integer 2; Tok_greater] []) []
      = Some (failure, p', [] ++ ps) ∧
      diagnostics p' = [] ++ [mkDiagnostic loc msg])).
Proof.
  split; [|split].
  - apply (proj1 (defaultParser_spec parseInteger (mkAsmParser [Tok_comma] []) [])).
    cbn. congruence.
  - apply (proj1 (proj2 (defaultParser_spec parseInteger
                           (mkAsmParser [Tok_less; Tok_greater; Tok_comma] []) []))).
    reflexivity.
  - apply (proj2 (proj2 (defaultParser_spec parseInteger
                           (mkAsmParser [Tok_less; Tok_integer 1; Tok_comma; Tok_integer 2;
                                         Tok_greater] []) []))).
    + reflexivity.
    + cbn. congruence.
Defined.

Lemma DynamicType_print_parse_round_trip_witness :
  ∃ t c1 text,
    DynamicType_get ctx_defs 0 [1%Z; 2%Z; 3%Z] = Ok (t, c1) ∧
    DynamicType_print c1 t [] = Ok (Tok_bare_identifier "mytype" :: text) ∧
    text = defaultPrinter printInteger [] [1%Z; 2%Z; 3%Z] ∧
    ([1%Z; 2%Z; 3%Z] = [] → text = []) ∧
    ∀ diags parsedType,
      ∃ p', DynamicType_parse c1 (mkAsmParser text diags) 0 parsedType
            = Ok (success, p', t, c1) ∧
            tokens p' = [].
Proof.
  eexists _, _. 
  assert (Hget : DynamicType_get ctx_defs 0 [1%Z; 2%Z; 3%Z]
                 = Ok (Some 0, (value (None, ctx_defs)
                                  (DynamicType_get ctx_defs 0 [1%Z; 2%Z; 3%Z])).2))
    by reflexivity.
  destruct (DynamicType_print_parse_round_trip parseInteger printInteger printOpName
              parseInteger_printInteger printInteger_head
              ctx_defs _ _ 0 _ [1%Z; 2%Z; 3%Z] _
              eq_refl eq_refl eq_refl eq_refl Hget (rtc_refl _ _))
    as (text & Hprint & Htext & Hnil & Hparse).
  exists text. split; [exact Hget|]. split; [exact Hprint|]. by repeat split.
Defined.

Lemma DynamicOpDefinition_get_default_hooks_witness :
  ∃ def c,
    DynamicOpDefinition_get printOpName ctx_test "myop" 0 verifyOp = Ok (def, c) ∧
    (∀ (p : AsmParser) (result : unit),
       ∃ msg,
         parseFn def p result = (failure, emitError p (getCurrentLocation p) msg, result) ∧
         msg = "dynamic operation do not define any parser function" ∧
         msg ≠ "" ∧
         diagnostics (parseFn def p result).1.2
         = diagnostics p ++ [mkDiagnostic (tokens p) msg]) ∧
    (∀ (op : string) (os : OStream), printFn def op os = printOpName op os).
Proof.
  eexists _, _. split; [reflexivity|].
  eapply (DynamicOpDefinition_get_default_hooks printOpName ctx_test _ "myop" 0 verifyOp).
  reflexivity.
Defined.

Lemma addDynamicType_assertions_witness :
  ∃ ctx' self',
    addDynamicType ctx_defs 0 0 = Ok ctx' ∧
    dialects ctx' !! 0 = Some self' ∧
    dynTypes self' !! 0 = Some 0 ∧
    nameToDynTypes self' !! "mytype" = Some 0.
Proof.
  eapply (proj2 (addDynamicType_assertions ctx_defs 0 0 _ _ eq_refl eq_refl));
    reflexivity.
Defined.

Lemma DynamicType_print_name_then_hook_witness :
  ∃ t c,
    DynamicType_get ctx_defs 0 [7%Z] = Ok (t, c) ∧
    ∃ def,
      typeDefs c !! 0 = Some def ∧
      DynamicType_print c t []
      = Ok (printer def ([] ++ [Tok_bare_identifier (name def)]) [7%Z]) ∧
      contains (name def) "."%char = false ∧
      ∀ ns n, name def ≠ ns +:+ "." +:+ n.
Proof.
  exists (Some 0), (value (None, ctx_defs) (DynamicType_get ctx_defs 0 [7%Z])).2.
  split; [reflexivity|].
  apply (DynamicType_print_name_then_hook parseInteger printInteger printOpName
           ctx_test
           (value (None, ctx_defs) (DynamicType_get ctx_defs 0 [7%Z])).2 (Some 0) []
           (mkDynamicTypeStorage 0 [7%Z])).
  - by apply names_unqualified_nil.
  - intros ptr s. cbn. by rewrite lookup_nil.
  - eapply rtc_r; [apply steps_ctx_defs|].
    eapply (step_DynamicType_get _ _ _ ctx_defs 0 [7%Z]). reflexivity.
  - reflexivity.
Defined.

Lemma steps_ctx_registered : steps_here ctx_test ctx_registered.
Proof.
  eapply rtc_trans; [apply steps_ctx_defs|].
  set (c1 := value ctx_defs (addDynamicType ctx_defs 0 0)).
  set (c2 := value c1 (addDynamicType c1 0 1)).
  assert (Heq : ctx_registered = value c2 (addDynamicType c2 0 2))
    by (vm_compute; reflexivity).
  rewrite Heq.
  eapply rtc_l; [eapply (step_addDynamicType _ _ _ ctx_defs 0 0 c1); reflexivity|].
  eapply rtc_l; [eapply (step_addDynamicType _ _ _ c1 0 1 c2); reflexivity|].
  eapply rtc_l; [eapply (step_addDynamicType _ _ _ c2 0 2); reflexivity|].
  apply rtc_refl.
Qed.

Lemma ExtensibleDialect_classof_always_witness :
  classof ctx_test 0 = Ok true ∧ classof ctx_registered 0 = Ok true.
Proof.
  apply (ExtensibleDialect_classof_always parseInteger printInteger printOpName
           emptyContext ctx_registered "test" 0).
  apply steps_ctx_registered.
Defined.

(** ** Where the code and the claims part *)

(** [ctx_defs] after an instance of [mytype] without parameters and an
    instance of [strict] with the parameter [1] were made by [get]. *)
Definition ctx_instances : Ctx :=
  (value (None, ctx_defs)
     ('(_, c) ← DynamicType_get ctx_defs 0 []; DynamicType_get c 1 [1%Z])).2.

(** C3 (the code at the failing input).  The verifier of [strict] rejects
    every parameter list.  Parsing an instance of [strict] from an input
    without parameters, the default parse hook succeeds, the verifier
    rejects and emits its error, and [DynamicType::parse] returns success
    with the null instance as its result; so does
    [parseOptionalDynamicType], its caller. *)
Theorem DynamicType_parse_success_on_rejected_parameters :
  failed (rejectAll []).1 = true ∧
  DynamicType_parse ctx_registered (mkAsmParser [] []) 1 None
  = Ok (success, mkAsmParser [] [mkDiagnostic [] "no parameters are valid"], None,
        ctx_registered) ∧
  parseOptionalDynamicType ctx_registered 0 "strict" (mkAsmParser [] []) None
  = Ok (Some success, mkAsmParser [] [mkDiagnostic [] "no parameters are valid"], None,
        ctx_registered).
Proof. split; [reflexivity|]. split; reflexivity. Qed.

(** C7 (the code at the failing input).  The verifier-only
    [DynamicOpDefinition::get] takes the name [a.b], which contains the
    separator, and returns a definition named [test.a.b]; the full [get]
    stops at its assertion for the same name. *)
Theorem DynamicOpDefinition_get_takes_qualified_name :
  contains "a.b" "."%char = true ∧
  (∃ def c,
     DynamicOpDefinition_get printOpName ctx_test "a.b" 0 verifyOp = Ok (def, c) ∧
     op_name def = "test.a.b") ∧
  DynamicOpDefinition_get_custom ctx_test "a.b" 0 verifyOp
    noParserFn (genericPrintFn printOpName)
  = AssertionFailure "name should not be prefixed by the dialect name".
Proof.
  split; [reflexivity|]. split; [|reflexivity].
  eexists _, _. split; reflexivity.
Qed.

(** C4 as it is stated fails: after ['<'], the default parse hook does not
    always read at least one attribute value or fail; on ['<' '>'] it
    succeeds with no parameters. *)
Lemma defaultParser_takes_empty_brackets :
  ¬ (∀ (p : AsmParser) (ts : list Token) (parsedParams : list Z),
       tokens p = Tok_less :: ts →
       (∃ ps rest,
          attr_list parseInteger ts ps rest ∧
          defaultParser parseInteger p parsedParams
          = Some (success, consume p rest, parsedParams ++ ps))
       ∨ (∃ p' ps, defaultParser parseInteger p parsedParams = Some (failure, p', ps))).
Proof.
  intros H.
  destruct (H (mkAsmParser [Tok_less; Tok_greater] []) [Tok_greater] [] eq_refl)
    as [(ps & rest & Hlist & _)|(p' & ps & Hfail)].
  - inversion Hlist as [ts a n ps' rest' Ha _]. discriminate Ha.
  - discriminate Hfail.
Qed.

(** C5 as it is stated fails: an instance of [strict], made by [get], is
    printed as [strict<1>]; parsing this text again does not yield the
    instance, since the verifier rejects its parameters. *)
Lemma DynamicType_round_trip_needs_verified_parameters :
  ¬ (∀ (ctx ctx1 : Ctx) (D : nat) (def : DynamicTypeDefinition) (P : list Z)
       (t : DynamicType),
       typeDefs ctx !! D = Some def →
       parser def = defaultParser parseInteger →
       printer def = defaultPrinter printInteger →
       DynamicType_get ctx D P = Ok (t, ctx1) →
       ∃ text,
         DynamicType_print ctx1 t [] = Ok (Tok_bare_identifier (name def) :: text) ∧
         ∃ r p' ctx2,
           DynamicType_parse ctx1 (mkAsmParser text []) D None = Ok (r, p', t, ctx2)).
Proof.
  intros H.
  destruct (H ctx_defs (value (None, ctx_defs) (DynamicType_get ctx_defs 1 [1%Z])).2
              1 _ [1%Z] (Some 0) eq_refl eq_refl eq_refl eq_refl)
    as (text & Hprint & r & p' & ctx2 & Hparse).
  injection Hprint as <-. discriminate Hparse.
Qed.

(** C9 as it is stated fails: the instance of [mytype] in the dialect
    [test] is printed as [mytype], not as [test.mytype]. *)
Lemma DynamicType_print_name_not_qualified :
  ¬ (∀ (ctx : Ctx) (t : DynamicType) (os : OStream) (impl : DynamicTypeStorage)
       (def : DynamicTypeDefinition) (d : Dialect),
       getImpl ctx t = Ok impl →
       typeDefs ctx !! typeDef impl = Some def →
       dialects ctx !! dialect def = Some d →
       DynamicType_print ctx t os
       = Ok (printer def
               (os ++ [Tok_bare_identifier (getNamespace d +:+ "." +:+ name def)])
               (params impl))).
Proof.
  intros H.
  specialize (H ctx_instances (Some 0) [] _ _ _ eq_refl eq_refl eq_refl).
  discriminate H.
Qed.

End Example.

(** * The rest of the file on the concrete instance *)

Module Coverage.

Import Example.

Definition mytype : @DynamicTypeDefinition Z :=
  mkDynamicTypeDefinition "mytype" 0 acceptAll (defaultParser parseInteger)
    (defaultPrinter printInteger) 0.

(** [ctx_defs] after [mytype] alone was registered. *)
Definition ctx_one : Ctx := value ctx_defs (addDynamicType ctx_defs 0 0).

(** [ctx_registered] after an instance of [mytype] with three parameters
    was made. *)
Definition ctx_three : Ctx :=
  (value (None, ctx_registered) (DynamicType_get ctx_registered 0 [1%Z; 2%Z; 3%Z])).2.

Lemma steps_ctx_test : steps_here emptyContext ctx_test.
Proof. apply rtc_once. apply (step_new_ExtensibleDialect _ _ _ emptyContext "test" 0). Qed.

Lemma steps_empty_registered : steps_here emptyContext ctx_registered.
Proof. eapply rtc_trans; [apply steps_ctx_test|apply steps_ctx_registered]. Qed.

Lemma steps_ctx_three : steps_here emptyContext ctx_three.
Proof.
  eapply rtc_r; [apply steps_empty_registered|].
  eapply (step_DynamicType_get _ _ _ ctx_registered 0 [1%Z; 2%Z; 3%Z]). reflexivity.
Qed.

Lemma DynamicTypeDefinition_get_checks_name_witness :
  DynamicTypeDefinition_get_custom ctx_test 0 "test.mytype" acceptAll
    (defaultParser parseInteger) (defaultPrinter printInteger)
  = AssertionFailure "name should not be prefixed by the dialect name" ∧
  ∃ ctx',
    DynamicTypeDefinition_get_custom ctx_test 0 "mytype" acceptAll
      (defaultParser parseInteger) (defaultPrinter printInteger)
    = Ok (length (typeDefs ctx_test), ctx') ∧
    typeDefs ctx' = typeDefs ctx_test ++ [mytype] ∧
    nextTypeID ctx' = S (nextTypeID ctx_test) ∧
    dialects ctx' = dialects ctx_test ∧
    arena ctx' = arena ctx_test ∧
    typeUniquer ctx' = typeUniquer ctx_test.
Proof.
  split.
  - apply (DynamicTypeDefinition_get_checks_name parseInteger printInteger
             ctx_test 0 "test.mytype" acceptAll); [by eexists|reflexivity].
  - apply (DynamicTypeDefinition_get_checks_name parseInteger printInteger
             ctx_test 0 "mytype" acceptAll); [by eexists|reflexivity].
Defined.

Lemma typeIDs_stay_unique_witness :
  0 ≠ 2 ∧ 0 < nextTypeID ctx_registered ∧ 2 < nextTypeID ctx_registered.
Proof.
  exact (typeIDs_stay_unique parseInteger printInteger printOpName
           emptyContext ctx_registered 0 2 mytype
           (mkDynamicTypeDefinition "some" 0 nonEmpty (defaultParser parseInteger)
              (defaultPrinter printInteger) 2)
           typeIDs_unique_empty steps_empty_registered eq_refl eq_refl
           ltac:(discriminate)).
Defined.

Lemma registry_stays_wf_witness :
  ∃ def, typeDefs ctx_registered !! 1 = Some def ∧ name def = "strict" ∧
         dialect def = 0 ∧
         ∃ self, dialects ctx_registered !! 0 = Some self ∧
                 dynTypes self !! typeID def = Some 1.
Proof.
  destruct (registry_stays_wf parseInteger printInteger printOpName
              emptyContext ctx_registered 0 _
              registry_wf_empty steps_empty_registered eq_refl) as [_ Hname].
  destruct (Hname "strict" 1 eq_refl) as (def & Hdef & Hn & Hown & Hid).
  exists def. repeat split; [done..|]. eexists. split; [reflexivity|exact Hid].
Defined.

Lemma one_storage_per_key_witness :
  0 = 0 ∧ DynamicType_get ctx_three 0 [1%Z; 2%Z; 3%Z] = Ok (Some 0, ctx_three).
Proof.
  exact (one_storage_per_key parseInteger printInteger printOpName
           emptyContext ctx_three 0 0 (mkDynamicTypeStorage 0 [1%Z; 2%Z; 3%Z])
           uniquer_wf_empty steps_ctx_three eq_refl eq_refl).
Defined.

Lemma DynamicType_get_accessors_witness :
  getTypeDef ctx_three (Some 0) = Ok 0 ∧
  getParams ctx_three (Some 0) = Ok [1%Z; 2%Z; 3%Z] ∧
  DynamicType_get ctx_three 0 [1%Z; 2%Z; 3%Z] = Ok (Some 0, ctx_three).
Proof.
  apply (DynamicType_get_accessors parseInteger printInteger printOpName
           ctx_registered ctx_three ctx_three 0 [1%Z; 2%Z; 3%Z] (Some 0));
    [reflexivity|apply rtc_refl].
Defined.

Lemma addDynamicType_once_witness :
  (∃ self2, dialects ctx_one !! 0 = Some self2 ∧
            lookupTypeDefinition self2 "mytype" = Some 0) ∧
  addDynamicType ctx_one 0 0 = AssertionFailure "generated TypeID was not unique" ∧
  (∀ type' def', typeDefs ctx_one !! type' = Some def' → name def' = "mytype" →
     is_assertion_failure (addDynamicType ctx_one 0 type')).
Proof.
  apply (addDynamicType_once parseInteger printInteger printOpName
           ctx_defs ctx_one ctx_one 0 0 mytype);
    [reflexivity|reflexivity|apply rtc_refl].
Defined.

Lemma addDynamicType_TypeID_collision_witness :
  ∃ self def,
    dialects ctx_registered !! 0 = Some self ∧
    typeDefs ctx_registered !! 2 = Some def ∧
    dynTypes self !! typeID def = Some 2 ∧
    nameToDynTypes self !! name def = Some 2.
Proof.
  apply (addDynamicType_TypeID_collision parseInteger printInteger printOpName
           emptyContext ctx_registered 0 2
           typeIDs_unique_empty registry_wf_empty steps_empty_registered).
  reflexivity.
Defined.

Definition strict : @DynamicTypeDefinition Z :=
  mkDynamicTypeDefinition "strict" 0 rejectAll (defaultParser parseInteger)
    (defaultPrinter printInteger) 1.

Definition input_123 : list Token :=
  [Tok_less; Tok_integer 1; Tok_comma; Tok_integer 2; Tok_comma; Tok_integer 3; Tok_greater].

Lemma DynamicType_parse_cases_witness :
  DynamicType_parse ctx_three (mkAsmParser [Tok_less; Tok_integer 1; Tok_integer 2] []) 0 None
  = Ok (failure,
        mkAsmParser [Tok_integer 2] [mkDiagnostic [Tok_integer 2] "expected ','"],
        None, ctx_three) ∧
  DynamicType_parse ctx_three (mkAsmParser input_123 []) 1 None
  = Ok (success,
        reported (mkAsmParser [] []) ["no parameters are valid"], None, ctx_three) ∧
  ∃ ptr ctx',
    DynamicType_get ctx_three 0 [1%Z; 2%Z; 3%Z] = Ok (Some ptr, ctx') ∧
    DynamicType_parse ctx_three (mkAsmParser input_123 []) 0 None
    = Ok (success, reported (mkAsmParser [] []) [], Some ptr, ctx').
Proof.
  split; [|split].
  - apply (DynamicType_parse_cases ctx_three
             (mkAsmParser [Tok_less; Tok_integer 1; Tok_integer 2] [])
             (mkAsmParser [Tok_integer 2] [mkDiagnostic [Tok_integer 2] "expected ','"])
             0 mytype None failure [1%Z]); reflexivity.
  - apply (DynamicType_parse_cases ctx_three (mkAsmParser input_123 [])
             (mkAsmParser [] []) 1 strict None success [1%Z; 2%Z; 3%Z]); reflexivity.
  - apply (DynamicType_parse_cases ctx_three (mkAsmParser input_123 [])
             (mkAsmParser [] []) 0 mytype None success [1%Z; 2%Z; 3%Z]); reflexivity.
Defined.

Lemma parseOptionalDynamicType_cases_witness :
  parseOptionalDynamicType ctx_three 0 "unknown" (mkAsmParser input_123 []) (Some 7)
  = Ok (None, mkAsmParser input_123 [], Some 7, ctx_three) ∧
  parseOptionalDynamicType ctx_three 0 "mytype"
    (mkAsmParser [Tok_less; Tok_integer 1; Tok_integer 2] []) (Some 7)
  = Ok (Some failure,
        mkAsmParser [Tok_integer 2] [mkDiagnostic [Tok_integer 2] "expected ','"],
        Some 7, ctx_three) ∧
  parseOptionalDynamicType ctx_three 0 "mytype" (mkAsmParser input_123 []) (Some 7)
  = Ok (Some success, mkAsmParser [] [], Some 0, ctx_three).
Proof.
  split; [|split].
  - apply (proj1 (parseOptionalDynamicType_cases ctx_three 0 _ "unknown"
                    (mkAsmParser input_123 []) (Some 7) eq_refl)).
    reflexivity.
  - apply (proj1 (proj2 (parseOptionalDynamicType_cases ctx_three 0 _ "mytype"
                           (mkAsmParser [Tok_less; Tok_integer 1; Tok_integer 2] [])
                           (Some 7) eq_refl)) 0 _ None ctx_three);
      reflexivity.
  - apply (proj2 (proj2 (parseOptionalDynamicType_cases ctx_three 0 _ "mytype"
                           (mkAsmParser input_123 []) (Some 7) eq_refl)) 0);
      reflexivity.
Defined.

Lemma defaultParser_effects_witness :
  ∃ r p' ps n,
    defaultParser parseInteger
      (mkAsmParser [Tok_less; Tok_integer 1; Tok_comma; Tok_greater] []) []
    = Some (r, p', ps) ∧
    tokens p' = drop n [Tok_less; Tok_integer 1; Tok_comma; Tok_greater] ∧
    0 < n.
Proof.
  destruct (defaultParser_effects parseInteger
              (mkAsmParser [Tok_less; Tok_integer 1; Tok_comma; Tok_greater] []) [])
    as (r & p' & ps & n & Hrun & Htok & Hn & _).
  exists r, p', ps, n. split; [exact Hrun|]. split; [exact Htok|].
  apply Hn. reflexivity.
Defined.

Lemma defaultParser_defaultPrinter_followed_witness :
  defaultParser parseInteger
    (mkAsmParser (defaultPrinter printInteger [] [1%Z; 2%Z] ++ [Tok_less; Tok_comma]) []) []
  = Some (success, mkAsmParser [Tok_less; Tok_comma] [], [] ++ [1%Z; 2%Z]) ∧
  defaultParser parseInteger
    (mkAsmParser (defaultPrinter printInteger [] [] ++ [Tok_comma]) []) []
  = Some (success, mkAsmParser [Tok_comma] [], [] ++ []).
Proof.
  split.
  - apply (defaultParser_defaultPrinter_followed parseInteger printInteger
             parseInteger_printInteger printInteger_head [1%Z; 2%Z] [Tok_less; Tok_comma] [] []).
    left. discriminate.
  - apply (defaultParser_defaultPrinter_followed parseInteger printInteger
             parseInteger_printInteger printInteger_head [] [Tok_comma] [] []).
    right. discriminate.
Defined.

Lemma steps_one_registered : steps_here ctx_one ctx_registered.
Proof.
  assert (Heq : ctx_registered
                = value ctx_one (c ← addDynamicType ctx_one 0 1; addDynamicType c 0 2))
    by (vm_compute; reflexivity).
  rewrite Heq.
  eapply rtc_l; [eapply (step_addDynamicType _ _ _ ctx_one 0 1); reflexivity|].
  eapply rtc_l; [eapply (step_addDynamicType _ _ _ _ 0 2); reflexivity|].
  apply rtc_refl.
Qed.

Lemma registered_type_round_trip_witness :
  ∃ text,
    DynamicType_print ctx_three (Some 0) [] = Ok (Tok_bare_identifier "mytype" :: text) ∧
    ∀ diags resultType,
      ∃ p', parseOptionalDynamicType ctx_three 0 "mytype" (mkAsmParser text diags) resultType
            = Ok (Some success, p', Some 0, ctx_three) ∧
            tokens p' = [].
Proof.
  apply (registered_type_round_trip parseInteger printInteger printOpName
           parseInteger_printInteger printInteger_head
           ctx_defs ctx_one ctx_registered ctx_three ctx_three 0 0 mytype
           [1%Z; 2%Z; 3%Z] (Some 0));
    [reflexivity|reflexivity|reflexivity|reflexivity|reflexivity
    |apply steps_one_registered|reflexivity|apply rtc_refl].
Defined.

Definition myop : @DynamicOpDefinition string unit :=
  mkDynamicOpDefinition 0 "test.myop" 0 verifyOp noParserFn (genericPrintFn printOpName).

Lemma addDynamicOp_registers_witness :
  addDynamicOp ctx_registered 0
    (mkDynamicOpDefinition 0 "other.myop" 1 verifyOp noParserFn (genericPrintFn printOpName))
  = AssertionFailure "trying to register a dynamic op in the wrong dialect" ∧
  ∃ ctx' op,
    addDynamicOp ctx_registered 0 myop = Ok ctx' ∧
    registeredOperations ctx' !! "test.myop" = Some op ∧
    (∀ o operands, ao_foldHook op o operands = failure) ∧
    (∀ traitId, ao_hasTrait op traitId = false).
Proof.
  split.
  - apply (addDynamicOp_registers ctx_registered 0 _
             (mkDynamicOpDefinition 0 "other.myop" 1 verifyOp noParserFn
                (genericPrintFn printOpName)) eq_refl).
    discriminate.
  - destruct (proj2 (addDynamicOp_registers ctx_registered 0 _ myop eq_refl) eq_refl)
      as (ctx' & op & Hadd & Hlook & _ & _ & _ & _ & _ & _ & Hfold & _ & _ & Htrait & _).
    exists ctx', op. by repeat split.
Defined.

Lemma DynamicOpDefinition_get_then_add_witness :
  ∃ def ctx1 ctx2 op,
    DynamicOpDefinition_get printOpName ctx_registered "myop" 0 verifyOp = Ok (def, ctx1) ∧
    addDynamicOp ctx1 0 def = Ok ctx2 ∧
    registeredOperations ctx2 !! "test.myop" = Some op ∧
    (∀ o os, ao_printAssembly op o os = printOpName o os).
Proof.
  destruct (DynamicOpDefinition_get_then_add printOpName ctx_registered
              (value (myop, ctx_registered)
                 (DynamicOpDefinition_get printOpName ctx_registered "myop" 0 verifyOp)).2
              "myop" 0 _ verifyOp
              (value (myop, ctx_registered)
                 (DynamicOpDefinition_get printOpName ctx_registered "myop" 0 verifyOp)).1
              eq_refl eq_refl)
    as (ctx2 & op & Hadd & Hlook & _ & _ & _ & Hprint).
  eexists _, _, ctx2, op. split; [reflexivity|]. by repeat split.
Defined.

Lemma DynamicType_print_default_text_witness :
  DynamicType_print ctx_three (Some 0) [Tok_comma]
  = Ok [Tok_comma; Tok_bare_identifier "mytype"; Tok_less; Tok_integer 1; Tok_comma;
        Tok_integer 2; Tok_comma; Tok_integer 3; Tok_greater].
Proof.
  exact (DynamicType_print_default_text printInteger ctx_three (Some 0) [Tok_comma]
           (mkDynamicTypeStorage 0 [1%Z; 2%Z; 3%Z]) mytype eq_refl eq_refl eq_refl).
Defined.

End Coverage.
